(** * better-chess.js: the analysis engine of [src/utils.ts] and the
      [BetterChess] class, embedded over the chess.js query surface.

    The rules engine (chess.js) is an external dependency: it is taken as a
    type class, [ChessJS], whose methods are the calls the source makes on a
    [Chess] instance.  Everything else is translated from the TypeScript
    source, function by function.

    Conventions: [null] and [undefined] are [None]; squares and FENs are
    strings, as in the source; the constructor of the rules engine is taken
    total, so a call that would throw on a rejected snapshot is outside the
    model and the properties speak of the results that are returned; the
    recursion of [buildPieceInEffect] and the loop of [_getPiecesAlongRay]
    carry a fuel, shown below to be enough. *)

From Stdlib Require Import ZArith String Ascii List Bool Lia Permutation.
From Stdlib Require Import DecimalString.
Import ListNotations.
Open Scope string_scope.
Open Scope list_scope.
Open Scope Z_scope.

(* ================================================================== *)
(** ** Data model ([types.ts]) *)
(* ================================================================== *)

(** ['w' | 'b'] *)
Inductive Color := White | Black.

(** chess.js [PieceSymbol]: ['p' | 'n' | 'b' | 'r' | 'q' | 'k'] *)
Inductive PieceSymbol := Pawn | Knight | Bishop | Rook | Queen | King.

Definition Color_eqb (c1 c2 : Color) : bool :=
  match c1, c2 with
  | White, White | Black, Black => true
  | _, _ => false
  end.

Definition PieceSymbol_eqb (k1 k2 : PieceSymbol) : bool :=
  match k1, k2 with
  | Pawn, Pawn | Knight, Knight | Bishop, Bishop
  | Rook, Rook | Queen, Queen | King, King => true
  | _, _ => false
  end.

Definition swapColor (c : Color) : Color :=
  match c with White => Black | Black => White end.

(** What [chess.get(square)] returns for an occupied square. *)
Record Piece := mkPiece { ptype : PieceSymbol; pcolor : Color }.

(** [PieceInEffect]: [at], [name], [color], [attackers], [defenders]. *)
#[warnings="-register-all"]
Inductive PieceInEffect := mkPieceInEffect {
  at_ : string;
  name : PieceSymbol;
  color : Color;
  attackers : list PieceInEffect;
  defenders : list PieceInEffect
}.

Inductive Tactic := fork | pin | skewer | doubleCheck | trap.

Record TacticalMove := mkTacticalMove {
  tactic : Tactic;
  targets : list PieceInEffect
}.

(** [MoveEffect['type']] *)
Inductive MoveType :=
  | promotion | capture | check | checkmate | stalemate
  | enPassant | castling | normal | attacking | fianchetto.

(** [MoveEffect['defense']] *)
Inductive Defense := underdefended | undefended | defended | overdefended.

Record HangingPieces := mkHanging {
  hp_w : list PieceInEffect;
  hp_b : list PieceInEffect
}.

Record MoveEffect := mkMoveEffect {
  piece : PieceInEffect;
  capturedPiece : option PieceInEffect;
  tactics : list TacticalMove;
  attacks : list PieceInEffect;
  defends : list PieceInEffect;
  type : MoveType;
  defense : Defense;
  hangingPieces : HangingPieces
}.

(** [hangingPieces[c]] *)
Definition hangingOf (h : HangingPieces) (c : Color) : list PieceInEffect :=
  match c with White => hp_w h | Black => hp_b h end.

(** A verbose chess.js move object, with the fields the source reads. *)
Record Move := mkMove {
  m_color : Color;
  m_from : string;
  m_to : string;
  m_piece : PieceSymbol;
  m_captured : option PieceSymbol;
  m_promotion : option PieceSymbol;
  m_flags : string;
  m_san : string;
  m_before : string;
  m_after : string
}.

(** The argument of [Chess.move]: a SAN string or a [{from, to, promotion}]
    object (a verbose move object is passed as the latter). *)
Inductive MoveArg :=
  | San (san : string)
  | FromTo (from to : string) (promo : option PieceSymbol).

Definition argOfMove (m : Move) : MoveArg :=
  FromTo (m_from m) (m_to m) (m_promotion m).

(* ================================================================== *)
(** ** The rules engine, as the source uses it *)
(* ================================================================== *)

Class ChessJS := {
  Chess : Type;
  (** [new Chess(fen)] *)
  new_Chess : string -> Chess;
  (** [chess.get(square)]; [None] is [undefined] *)
  get : Chess -> string -> option Piece;
  (** [chess.attackers(square, attackedBy)] *)
  chess_attackers : Chess -> string -> Color -> list string;
  (** [chess.moves({ verbose: true })] *)
  moves : Chess -> list Move;
  (** [chess.moves({ square, verbose: true })] *)
  movesOf : Chess -> string -> list Move;
  (** [chess.move(arg)]: the move made and the instance after it; [None]
      when the move is refused *)
  move : Chess -> MoveArg -> option (Move * Chess);
  (** [chess.fen()] *)
  fen : Chess -> string;
  (** [chess.turn()] *)
  turn : Chess -> Color;
  (** [chess.history({ verbose: true })] *)
  history : Chess -> list Move;
  (** [chess.isStalemate], [None] when the engine has no such method *)
  isStalemate : option (Chess -> bool);
  isGameOver : Chess -> bool;
  isCheckmate : Chess -> bool;
  isDraw : Chess -> bool;
  inCheck : Chess -> bool
}.

(* ================================================================== *)
(** ** JavaScript helpers *)
(* ================================================================== *)

(** [hay.includes(needle)] *)
Definition includes (hay needle : string) : bool :=
  match index 0 needle hay with Some _ => true | None => false end.

(** [s.charCodeAt(0)]; [None] is [NaN] *)
Definition charCodeAt0 (s : string) : option Z :=
  match s with
  | EmptyString => None
  | String c _ => Some (Z.of_N (N_of_ascii c))
  end.

(** [s[i]] for a string: the one-character string, or [None] for
    [undefined] *)
Definition charAt (s : string) (i : nat) : option string :=
  match String.get i s with
  | Some c => Some (String c EmptyString)
  | None => None
  end.

(** [parseInt(d)] and [Number(d)] on what [s[1]] yields for a square name:
    a decimal digit gives its value, anything else is taken as [NaN]. *)
Definition digitValue (d : option string) : option Z :=
  match d with
  | Some (String c EmptyString) =>
      let n := Z.of_N (N_of_ascii c) in
      if (48 <=? n) && (n <=? 57) then Some (n - 48) else None
  | _ => None
  end.

(** [String.fromCharCode(x)] *)
Definition fromCharCode (x : Z) : string :=
  String (ascii_of_N (Z.to_N x)) EmptyString.

(** A number converted to a string, as in [`${n}`] and [str + n]. *)
Definition numToString (n : Z) : string :=
  NilZero.string_of_int (Z.to_int n).

(** A truthy string: not empty. *)
Definition truthy (s : string) : bool := negb (s =? "")%string.

(** [\s] *)
Definition isSpace (c : ascii) : bool :=
  let n := N_of_ascii c in
  ((9 <=? n) && (n <=? 13) || (n =? 32) || (n =? 160))%N.

Definition colorLetter (c : Color) : string :=
  match c with White => "w" | Black => "b" end.

(** [s.replace(/\s[wb]\s/, ` ${c} `)]: the first match only. *)
Fixpoint replaceTurn (s : string) (c : Color) : string :=
  match s with
  | EmptyString => EmptyString
  | String c1 rest =>
      match rest with
      | String c2 (String c3 rest') =>
          if isSpace c1 && ((c2 =? "w")%char || (c2 =? "b")%char) && isSpace c3
          then (" " ++ colorLetter c ++ " " ++ rest')%string
          else String c1 (replaceTurn rest c)
      | _ => String c1 (replaceTurn rest c)
      end
  end.

(** [arr[i]] for a JavaScript index that may be negative. *)
Definition jsNth {A} (l : list A) (i : Z) : option A :=
  if i <? 0 then None else nth_error l (Z.to_nat i).

(* ================================================================== *)
(** ** [utils.ts] *)
(* ================================================================== *)

(** [MoveCategory]; its names are kept apart from those of
    [MoveEffect['type']]. *)
Module Category.
Inductive t :=
  | castle | check | mate | capture | promotion | developing | neutral.
End Category.

(** [getMoveCategory] *)
Definition getMoveCategory (san : string) : Category.t :=
  if prefix "O-O" san then Category.castle
  else if includes san "#" then Category.mate
  else if includes san "+" then Category.check
  else if includes san "x" then Category.capture
  else if includes san "=" then Category.promotion
  else Category.developing.

Definition PIECE_VALS (k : PieceSymbol) : Z :=
  match k with
  | Pawn => 1
  | Knight => 3
  | Bishop => 3
  | Rook => 5
  | Queen => 9
  | King => 100
  end.

Section Utils.

Context {engine : ChessJS}.

(** One pass of the [for (const from of ...)] loop of [buildPieceInEffect]:
    [sub] is what the nested call returns for [from]. *)
Definition pushReachable (chess : Chess) (c : Color)
    (sub : string -> option PieceInEffect)
    (acc : list PieceInEffect * list PieceInEffect) (from : string)
    : list PieceInEffect * list PieceInEffect :=
  match get chess from with
  | None => acc
  | Some p =>
      match sub from with
      | None => acc
      | Some s =>
          if Color_eqb (pcolor p) c
          then (fst acc, snd acc ++ [s])
          else (fst acc ++ [s], snd acc)
      end
  end.

(** [buildPieceInEffect], with the nesting of its calls counted by [fuel]:
    a call at depth [> 0] makes calls at depth [0], which make none. *)
Fixpoint buildPieceInEffect_fuel (fuel : nat) (square fenStr : string)
    (depth : Z) : option PieceInEffect :=
  match fuel with
  | O => None
  | S fuel' =>
      let chess := new_Chess fenStr in
      match get chess square with
      | None => None
      | Some pc =>
          let c := pcolor pc in
          let whiteReachable := chess_attackers chess square White in
          let blackReachable := chess_attackers chess square Black in
          let sub := fun from =>
            if 0 <? depth then buildPieceInEffect_fuel fuel' from fenStr 0
            else None in
          let '(atk, dfd) :=
            fold_left (pushReachable chess c sub)
                      (whiteReachable ++ blackReachable) ([], []) in
          Some {| at_ := square; name := ptype pc; color := c;
                  attackers := atk; defenders := dfd |}
      end
  end.

Definition buildPieceInEffect (square fenStr : string) (depth : Z)
    : option PieceInEffect :=
  buildPieceInEffect_fuel 2 square fenStr depth.

(** The [while] loop of [_getPiecesAlongRay]; [None] when [fuel] runs out
    before the loop ends. *)
Fixpoint rayLoop (fuel : nat) (chessInstance : Chess) (fenStr : string)
    (dx dy x y : Z) (piecesOnRay : list PieceInEffect)
    : option (list PieceInEffect) :=
  match fuel with
  | O => None
  | S fuel' =>
      if (97 <=? x) && (x <=? 104) && (1 <=? y) && (y <=? 8) then
        let currentSquare := (fromCharCode x ++ numToString y)%string in
        match get chessInstance currentSquare with
        | Some _ =>
            match buildPieceInEffect currentSquare fenStr 0 with
            | None => Some piecesOnRay
            | Some pieceEffect =>
                let piecesOnRay' := piecesOnRay ++ [pieceEffect] in
                if (length piecesOnRay' =? 2)%nat then Some piecesOnRay'
                else rayLoop fuel' chessInstance fenStr dx dy
                       (x + dx) (y + dy) piecesOnRay'
            end
        | None =>
            rayLoop fuel' chessInstance fenStr dx dy (x + dx) (y + dy)
              piecesOnRay
        end
      else Some piecesOnRay
  end.

(** [_getPiecesAlongRay]: nine rounds are enough for a step of one square
    ([rayLoop_terminates] below). *)
Definition _getPiecesAlongRay (chessInstance : Chess) (startSquare : string)
    (dx dy : Z) (fenStr : string) : option (list PieceInEffect) :=
  match charCodeAt0 startSquare, digitValue (charAt startSquare 1) with
  | Some x0, Some y0 =>
      rayLoop 9 chessInstance fenStr dx dy (x0 + dx) (y0 + dy) []
  | _, _ => Some []
  end.

(** Lines 128-133: the legal move of [prevFen] that leads to [fenStr]. *)
Definition findMove (fenStr prevFen : string) : option Move :=
  let prevChess := new_Chess prevFen in
  find (fun m =>
          let c := new_Chess prevFen in
          match move c (argOfMove m) with
          | Some (_, c') => (fen c' =? fenStr)%string
          | None => false
          end)
       (moves prevChess).

Definition isSome {A} (o : option A) : bool :=
  match o with Some _ => true | None => false end.

(** Lines 136-143: the tag read off the matched move. *)
Definition moveTag (moveObj : Move) : MoveType :=
  let t :=
    if includes (m_flags moveObj) "p" then promotion
    else if includes (m_flags moveObj) "c" || isSome (m_captured moveObj)
    then capture
    else if includes (m_flags moveObj) "e" then enPassant
    else if includes (m_flags moveObj) "k" || includes (m_flags moveObj) "q"
    then castling
    else normal in
  let t := if includes (m_san moveObj) "+" then check else t in
  if includes (m_san moveObj) "#" then checkmate else t.

(** Lines 145-155: the piece standing on the move's destination in the
    previous position. *)
Definition capturedOf (moveObj : Move) (prevFen : string)
    : option PieceInEffect :=
  let prevChess := new_Chess prevFen in
  let capturedPieceSquare := m_to moveObj in
  match get prevChess capturedPieceSquare with
  | None => None
  | Some captured =>
      match buildPieceInEffect capturedPieceSquare prevFen 0 with
      | None => None
      | Some cp =>
          Some {| at_ := capturedPieceSquare; name := ptype captured;
                  color := color cp; attackers := attackers cp;
                  defenders := defenders cp |}
      end
  end.

(** The condition of line 158. *)
Definition stalemateNow (chess : Chess) : bool :=
  match isStalemate with
  | Some method => method chess
  | None =>
      isGameOver chess && negb (isCheckmate chess) && negb (isDraw chess)
      && negb (inCheck chess)
  end.

(** Lines 163-177. *)
Definition defenseOf (numAttackers numDefenders : nat) : Defense :=
  if ((numDefenders =? 0) && (0 <? numAttackers))%nat then undefended
  else if ((0 <? numDefenders) && (numAttackers =? 0))%nat then overdefended
  else if ((0 <? numDefenders) && (0 <? numAttackers))%nat then
    if (numAttackers <? numDefenders)%nat then overdefended
    else if (numDefenders <? numAttackers)%nat then underdefended
    else defended
  else defended.

(** Lines 181-196: the condition under which the tag becomes
    [fianchetto]. *)
Definition fianchettoApplies (chess : Chess) (pc : Piece)
    (pieceSquare : string) : bool :=
  if PieceSymbol_eqb (ptype pc) Bishop
     && existsb (String.eqb pieceSquare) ["b2"; "g2"; "b7"; "g7"]
  then
    match charAt pieceSquare 0, digitValue (charAt pieceSquare 1) with
    | Some file, Some rank =>
        let adder := match pcolor pc with White => 1 | Black => -1 end in
        let frontPawn :=
          get chess (file ++ numToString (rank + adder))%string in
        let frontPawnPlusOne :=
          get chess (file ++ numToString (rank + adder * 2))%string in
        let isFianchettoPawnPresent := fun pawn : option Piece =>
          match pawn with
          | Some q =>
              PieceSymbol_eqb (ptype q) Pawn
              && Color_eqb (pcolor q) (pcolor pc)
          | None => false
          end in
        isFianchettoPawnPresent frontPawn
        || isFianchettoPawnPresent frontPawnPlusOne
    | _, _ => false
    end
  else false.

(** Lines 203-205: the square visited at round [i] of the board scan. *)
Definition squareOfIndex (i : Z) : string :=
  let file :=
    match charAt "abcdefgh" (Z.to_nat (i mod 8)) with
    | Some f => f
    | None => "undefined"
    end in
  let rank := i / 8 + 1 in
  (file ++ numToString rank)%string.

Definition pushHanging (h : HangingPieces) (c : Color) (eff : PieceInEffect)
    : HangingPieces :=
  match c with
  | White => {| hp_w := hp_w h ++ [eff]; hp_b := hp_b h |}
  | Black => {| hp_w := hp_w h; hp_b := hp_b h ++ [eff] |}
  end.

(** Lines 203-220: one round of the board scan, on the pair
    ([defends], [hangingPieces]). *)
Definition scanStep (chess : Chess) (fenStr pieceSquare : string)
    (st : list PieceInEffect * HangingPieces) (i : Z)
    : list PieceInEffect * HangingPieces :=
  let sq := squareOfIndex i in
  match get chess sq with
  | None => st
  | Some p =>
      if (sq =? pieceSquare)%string then st
      else
        match buildPieceInEffect sq fenStr 1 with
        | None => st
        | Some eff =>
            let defendedByPiece :=
              find (fun d => (at_ d =? pieceSquare)%string) (defenders eff) in
            let defends' :=
              if isSome defendedByPiece
                 && negb (PieceSymbol_eqb (name eff) King)
              then fst st ++ [eff] else fst st in
            let hanging' :=
              if ((0 <? length (attackers eff))
                  && (length (defenders eff) =? 0))%nat
              then pushHanging (snd st) (pcolor p) eff else snd st in
            (defends', hanging')
        end
  end.

(** The indices [0 .. 63] of the scan. *)
Definition scanIndices : list Z := map Z.of_nat (seq 0 64).

(** Lines 199-221. *)
Definition scanBoard (chess : Chess) (fenStr pieceSquare : string)
    : list PieceInEffect * HangingPieces :=
  fold_left (scanStep chess fenStr pieceSquare) scanIndices
            ([], {| hp_w := []; hp_b := [] |}).

(** Lines 232-242: one round of the loop over [pieceReachable]. *)
Definition attackStep (chess : Chess) (fenStr : string) (pc : Piece)
    (attacks : list PieceInEffect) (mv : Move) : list PieceInEffect :=
  let targetSquare := m_to mv in
  match get chess targetSquare with
  | None => attacks
  | Some targetPiece =>
      match buildPieceInEffect targetSquare fenStr 0 with
      | None => attacks
      | Some targetEffect =>
          if negb (Color_eqb (pcolor targetPiece) (pcolor pc))
          then attacks ++ [targetEffect] else attacks
      end
  end.

(** Lines 224-242.  [new Chess(alterFen)] is taken where the constructor
    accepts [alterFen]: chess.js refuses a FEN whose en-passant square does
    not fit the side in its second field, and on such a snapshot the call
    of line 227 throws for a piece of the side not to move. *)
Definition attacksOf (chess : Chess) (fenStr pieceSquare : string)
    (pc : Piece) : list PieceInEffect :=
  let alterFen := replaceTurn (fen chess) (pcolor pc) in
  let pieceReachable := movesOf (new_Chess alterFen) pieceSquare in
  fold_left (attackStep chess fenStr pc) pieceReachable [].

Definition ALL_8_DIRECTIONS : list (Z * Z) :=
  [ (0, 1); (0, -1); (1, 0); (-1, 0);
    (1, 1); (1, -1); (-1, 1); (-1, -1) ].

(** [arr.slice(a, b)] *)
Definition slice {A} (a b : nat) (l : list A) : list A :=
  firstn (b - a) (skipn a l).

(** [DIRECTIONS[piece.type]], for the kinds that pass the test of line
    254. *)
Definition DIRECTIONS (k : PieceSymbol) : list (Z * Z) :=
  match k with
  | Bishop => slice 4 8 ALL_8_DIRECTIONS
  | Rook => slice 0 4 ALL_8_DIRECTIONS
  | Queen => ALL_8_DIRECTIONS
  | _ => []
  end.

Definition Defense_eqb (d1 d2 : Defense) : bool :=
  match d1, d2 with
  | underdefended, underdefended | undefended, undefended
  | defended, defended | overdefended, overdefended => true
  | _, _ => false
  end.

(** Lines 267-288: one round of the loop over the directions.  The scan
    of a direction always ends ([_getPiecesAlongRay_terminates]), so the
    [None] branch is never taken. *)
Definition pinStep (chess : Chess) (pieceSquare : string) (pc : Piece)
    (dfs : Defense) (tactics : list TacticalMove) (d : Z * Z)
    : list TacticalMove :=
  let '(dx, dy) := d in
  match _getPiecesAlongRay chess pieceSquare dx dy (fen chess) with
  | None => tactics
  | Some piecesOnRay =>
      match piecesOnRay with
      | firstPiece :: secondPiece :: _ =>
          if negb (Color_eqb (color firstPiece) (pcolor pc))
             && negb (Color_eqb (color secondPiece) (pcolor pc))
          then
            let piece1Value := PIECE_VALS (name firstPiece) in
            let piece2Value := PIECE_VALS (name secondPiece) in
            let tacticName :=
              if (piece1Value >? piece2Value)
                 && existsb (Defense_eqb dfs) [defended; overdefended]
              then skewer else pin in
            tactics ++ [ {| tactic := tacticName;
                            targets := [firstPiece; secondPiece] |} ]
          else tactics
      | _ => tactics
      end
  end.

(** Lines 247-290. *)
Definition tacticsOf (chess : Chess) (pieceSquare : string) (pc : Piece)
    (dfs : Defense) (attacks : list PieceInEffect) : list TacticalMove :=
  let tactics :=
    if (1 <? length attacks)%nat
    then [ {| tactic := fork; targets := attacks |} ] else [] in
  if existsb (PieceSymbol_eqb (ptype pc)) [Bishop; Rook; Queen]
  then fold_left (pinStep chess pieceSquare pc dfs)
                 (DIRECTIONS (ptype pc)) tactics
  else tactics.

(** [moveInfo]; [None] is [null].  A [prevFen] that is absent or the empty
    string fails the test of line 124.  The definition gives what a call
    returns: where a constructor of lines 114, 125 or 227 throws, the call
    returns nothing, and nothing below says that a call returns. *)
Definition moveInfo (pieceSquare fenStr : string) (prevFen : option string)
    : option MoveEffect :=
  let chess := new_Chess fenStr in
  match get chess pieceSquare with
  | None => None
  | Some pc =>
      let type0 := normal in
      let moveObj :=
        match prevFen with
        | Some prev => if truthy prev then findMove fenStr prev else None
        | None => None
        end in
      let type1 :=
        match moveObj with Some m => moveTag m | None => type0 end in
      let captured :=
        match moveObj, prevFen with
        | Some m, Some prev => capturedOf m prev
        | _, _ => None
        end in
      let type2 := if stalemateNow chess then stalemate else type1 in
      match buildPieceInEffect pieceSquare fenStr 1 with
      | None => None (* not reached: [buildPieceInEffect_some] *)
      | Some pieceEffect =>
          let numAttackers := length (attackers pieceEffect) in
          let numDefenders := length (defenders pieceEffect) in
          let type3 := if (0 <? numAttackers)%nat then attacking else type2 in
          let dfs := defenseOf numAttackers numDefenders in
          let type4 :=
            if fianchettoApplies chess pc pieceSquare then fianchetto
            else type3 in
          let '(dfd, hanging) := scanBoard chess fenStr pieceSquare in
          let atk := attacksOf chess fenStr pieceSquare pc in
          let tcs := tacticsOf chess pieceSquare pc dfs atk in
          Some {| piece := pieceEffect;
                  capturedPiece := captured;
                  tactics := tcs;
                  attacks := atk;
                  defends := dfd;
                  type := type4;
                  defense := dfs;
                  hangingPieces := hanging |}
      end
  end.

End Utils.

(* ================================================================== *)
(** ** The [BetterChess] class *)
(* ================================================================== *)

(** [PieceRecord]: the counts under the keys [r], [n], [b], [q], [p]. *)
Record PieceRecord := mkPieceRecord {
  cnt_r : Z;
  cnt_n : Z;
  cnt_b : Z;
  cnt_q : Z;
  cnt_p : Z
}.

(** The [material] property: [{ w: PieceRecord; b: PieceRecord }]. *)
Record Material := mkMaterial {
  mat_w : PieceRecord;
  mat_b : PieceRecord
}.

Definition initialMaterial : Material :=
  {| mat_w := {| cnt_r := 2; cnt_n := 2; cnt_b := 2; cnt_q := 1; cnt_p := 8 |};
     mat_b := {| cnt_r := 2; cnt_n := 2; cnt_b := 2; cnt_q := 1; cnt_p := 8 |} |}.

(** [rec[k]], for the keys a [PieceRecord] has. *)
Definition count (rec : PieceRecord) (k : PieceSymbol) : option Z :=
  match k with
  | Rook => Some (cnt_r rec)
  | Knight => Some (cnt_n rec)
  | Bishop => Some (cnt_b rec)
  | Queen => Some (cnt_q rec)
  | Pawn => Some (cnt_p rec)
  | King => None
  end.

(** [rec[k] += d]; under the key [k] of a king the write makes a property
    of its own and leaves the five counts as they are. *)
Definition bump (rec : PieceRecord) (k : PieceSymbol) (d : Z) : PieceRecord :=
  match k with
  | Rook => {| cnt_r := cnt_r rec + d; cnt_n := cnt_n rec; cnt_b := cnt_b rec;
               cnt_q := cnt_q rec; cnt_p := cnt_p rec |}
  | Knight => {| cnt_r := cnt_r rec; cnt_n := cnt_n rec + d; cnt_b := cnt_b rec;
                 cnt_q := cnt_q rec; cnt_p := cnt_p rec |}
  | Bishop => {| cnt_r := cnt_r rec; cnt_n := cnt_n rec; cnt_b := cnt_b rec + d;
                 cnt_q := cnt_q rec; cnt_p := cnt_p rec |}
  | Queen => {| cnt_r := cnt_r rec; cnt_n := cnt_n rec; cnt_b := cnt_b rec;
                cnt_q := cnt_q rec + d; cnt_p := cnt_p rec |}
  | Pawn => {| cnt_r := cnt_r rec; cnt_n := cnt_n rec; cnt_b := cnt_b rec;
               cnt_q := cnt_q rec; cnt_p := cnt_p rec + d |}
  | King => rec
  end.

(** [material[side]] *)
Definition side (m : Material) (c : Color) : PieceRecord :=
  match c with White => mat_w m | Black => mat_b m end.

(** [material[side][k] += d] *)
Definition bumpSide (m : Material) (c : Color) (k : PieceSymbol) (d : Z)
    : Material :=
  match c with
  | White => {| mat_w := bump (mat_w m) k d; mat_b := mat_b m |}
  | Black => {| mat_w := mat_w m; mat_b := bump (mat_b m) k d |}
  end.

Definition MoveType_eqb (t1 t2 : MoveType) : bool :=
  match t1, t2 with
  | promotion, promotion | capture, capture | check, check
  | checkmate, checkmate | stalemate, stalemate | enPassant, enPassant
  | castling, castling | normal, normal | attacking, attacking
  | fianchetto, fianchetto => true
  | _, _ => false
  end.

Section BetterChessClass.

Context {engine : ChessJS}.

(** An instance: the inherited [Chess] state and the [material] field. *)
Record BetterChess := mkBetterChess {
  super : Chess;
  material : Material
}.

(** [new BetterChess(fen)]: the field initialiser gives the standard
    allotment, whatever the position. *)
Definition new_BetterChess (fenStr : string) : BetterChess :=
  {| super := new_Chess fenStr; material := initialMaterial |}.

(** A method: it returns a value and leaves the instance in a new state. *)
Definition Method (A : Type) : Type := BetterChess -> A * BetterChess.

Definition ret {A} (a : A) : Method A := fun this => (a, this).

Definition bind {A B} (m : Method A) (k : A -> Method B) : Method B :=
  fun this => let '(a, this') := m this in k a this'.

Notation "x <- m ;; k" := (bind m (fun x => k))
  (at level 61, m at next level, right associativity).
Notation "m ;;; k" := (bind m (fun _ => k))
  (at level 61, right associativity).

(** [super.move(...args)] *)
Definition super_move (arg : MoveArg) : Method (option Move) :=
  fun this =>
    match move (super this) arg with
    | Some (mv, chess') =>
        (Some mv, {| super := chess'; material := material this |})
    | None => (None, this)
    end.

(** [super.turn()], [this.history({ verbose: true })], [this.fen()] *)
Definition super_turn : Method Color := fun this => (turn (super this), this).
Definition this_history : Method (list Move) :=
  fun this => (history (super this), this).
Definition this_fen : Method string := fun this => (fen (super this), this).

(** [this.material[c][k]--] and [this.material[c][k]++] *)
Definition material_bump (c : Color) (k : PieceSymbol) (d : Z) : Method unit :=
  fun this =>
    (tt, {| super := super this;
            material := bumpSide (material this) c k d |}).

Definition when (cond : bool) (m : Method unit) : Method unit :=
  if cond then m else ret tt.

(** [moveAndAnalyze]; a refused move gives no analysis and leaves the
    instance as it was. *)
Definition moveAndAnalyze (arg : MoveArg) : Method (option MoveEffect) :=
  mv <- super_move arg ;;
  tn <- super_turn ;;
  let analysis :=
    match mv with
    | Some m => moveInfo (m_to m) (m_after m) (Some (m_before m))
    | None => None
    end in
  let pieceCaptured :=
    match analysis with Some a => capturedPiece a | None => None end in
  match pieceCaptured with
  | Some pc => material_bump tn (name pc) (-1)
  | None => ret tt
  end ;;;
  when (match analysis with
        | Some a => MoveType_eqb (type a) promotion
        | None => false
        end)
       (match mv with
        | Some m =>
            match m_promotion m with
            | Some promotedPiece =>
                material_bump
                  (match tn with White => Black | Black => White end)
                  promotedPiece 1
            | None => ret tt
            end
        | None => ret tt
        end) ;;;
  ret analysis.

(** [getAnalysisAt] *)
Definition getAnalysisAt (square : string) : Method (option MoveEffect) :=
  hist <- this_history ;;
  let lastMove := jsNth hist (Z.of_nat (length hist) - 2) in
  f <- this_fen ;;
  let prev :=
    match lastMove with
    | Some m => if truthy (m_after m) then Some (m_after m) else None
    | None => None
    end in
  ret (moveInfo square f prev).

(** A game: the moves [sans] played in turn through [moveAndAnalyze]. *)
Fixpoint playAll (sans : list string) (this : BetterChess) : BetterChess :=
  match sans with
  | [] => this
  | san :: rest => playAll rest (snd (moveAndAnalyze (San san) this))
  end.

End BetterChessClass.

(** The class as [index.ts] has it: no ledger, the instance is the
    inherited [Chess] state alone. *)
Module Index.
Section BetterChessClass.

Context {engine : ChessJS}.

Definition moveAndAnalyze (arg : MoveArg) (this : Chess)
    : option MoveEffect * Chess :=
  match move this arg with
  | Some (mv, this') =>
      (moveInfo (m_to mv) (m_after mv) (Some (m_before mv)), this')
  | None => (None, this)
  end.

Definition getAnalysisAt (square : string) (this : Chess)
    : option MoveEffect * Chess :=
  let hist := history this in
  let lastMove := jsNth hist (Z.of_nat (length hist) - 2) in
  (moveInfo square (fen this)
     match lastMove with
     | Some m => if truthy (m_after m) then Some (m_after m) else None
     | None => None
     end,
   this).

End BetterChessClass.
End Index.

(* ================================================================== *)
(** ** A rules engine for the examples

    An instance of [ChessJS] that computes its answers from the position:
    FEN reading and writing, attacked squares, legal moves in the order
    chess.js lists them, SAN.  The examples below run the source on it. *)
(* ================================================================== *)

Module Rules.

(** A square is a file [0 .. 7] (a .. h) and a rank [0 .. 7] (1 .. 8); the
    board holds 64 entries, entry [8 * rank + file]. *)
Definition Sq : Type := Z * Z.
Definition Board : Type := list (option Piece).

Definition onBoard (s : Sq) : bool :=
  let '(f, r) := s in (0 <=? f) && (f <=? 7) && (0 <=? r) && (r <=? 7).

Definition sqIndex (s : Sq) : nat := Z.to_nat (8 * snd s + fst s).

Definition pieceAt (bd : Board) (s : Sq) : option Piece :=
  if onBoard s then nth (sqIndex s) bd None else None.

Fixpoint setNth {A} (n : nat) (x : A) (l : list A) : list A :=
  match l, n with
  | [], _ => []
  | _ :: t, O => x :: t
  | h :: t, S n' => h :: setNth n' x t
  end.

Definition putAt (bd : Board) (s : Sq) (x : option Piece) : Board :=
  if onBoard s then setNth (sqIndex s) x bd else bd.

Definition emptyBoard : Board := repeat None 64.

(** ["e4"] for [(4, 3)] *)
Definition algebraic (s : Sq) : string :=
  (fromCharCode (97 + fst s) ++ numToString (snd s + 1))%string.

(** The square a name stands for, if it names one. *)
Definition squareOf (nm : string) : option Sq :=
  match nm with
  | String c1 (String c2 EmptyString) =>
      let f := Z.of_N (N_of_ascii c1) - 97 in
      let r := Z.of_N (N_of_ascii c2) - 49 in
      if onBoard (f, r) then Some (f, r) else None
  | _ => None
  end.

(** The squares in the order chess.js walks the board: a8, b8, ..., h1. *)
Definition allSquares : list Sq :=
  flat_map (fun r => map (fun f => (Z.of_nat f, 7 - Z.of_nat r)) (seq 0 8))
           (seq 0 8).

Record Position := mkPosition {
  board : Board;
  toMove : Color;
  castleWK : bool;
  castleWQ : bool;
  castleBK : bool;
  castleBQ : bool;
  epSquare : option Sq;
  halfMoves : Z;
  moveNumber : Z
}.

(** *** Reading a FEN *)

Fixpoint splitOn (sep : ascii) (s : string) : list string :=
  match s with
  | EmptyString => [EmptyString]
  | String c rest =>
      if (c =? sep)%char then EmptyString :: splitOn sep rest
      else
        match splitOn sep rest with
        | h :: t => String c h :: t
        | [] => [String c EmptyString]
        end
  end.

Definition pieceOfLetter (c : ascii) : option Piece :=
  let n := N_of_ascii c in
  let col := if (n <? 97)%N then White else Black in
  let low := if (n <? 97)%N then ascii_of_N (n + 32) else c in
  if (low =? "p")%char then Some (mkPiece Pawn col)
  else if (low =? "n")%char then Some (mkPiece Knight col)
  else if (low =? "b")%char then Some (mkPiece Bishop col)
  else if (low =? "r")%char then Some (mkPiece Rook col)
  else if (low =? "q")%char then Some (mkPiece Queen col)
  else if (low =? "k")%char then Some (mkPiece King col)
  else None.

Fixpoint readPlacement (s : string) (f r : Z) (bd : Board) : Board :=
  match s with
  | EmptyString => bd
  | String c rest =>
      if (c =? "/")%char then readPlacement rest 0 (r - 1) bd
      else
        match digitValue (Some (String c EmptyString)) with
        | Some d => readPlacement rest (f + d) r bd
        | None =>
            readPlacement rest (f + 1) r (putAt bd (f, r) (pieceOfLetter c))
        end
  end.

Fixpoint readNumber (s : string) (acc : Z) : Z :=
  match s with
  | EmptyString => acc
  | String c rest =>
      match digitValue (Some (String c EmptyString)) with
      | Some d => readNumber rest (10 * acc + d)
      | None => acc
      end
  end.

Definition load (fenStr : string) : Position :=
  let tokens := splitOn " " fenStr in
  let tok := fun i => nth i tokens EmptyString in
  {| board := readPlacement (tok 0%nat) 0 7 emptyBoard;
     toMove := if (tok 1%nat =? "b")%string then Black else White;
     castleWK := includes (tok 2%nat) "K";
     castleWQ := includes (tok 2%nat) "Q";
     castleBK := includes (tok 2%nat) "k";
     castleBQ := includes (tok 2%nat) "q";
     epSquare := squareOf (tok 3%nat);
     halfMoves := readNumber (tok 4%nat) 0;
     moveNumber := readNumber (tok 5%nat) 0 |}.

(** *** Attacks *)

Definition sgn (z : Z) : Z := Z.sgn z.

(** No piece strictly between [from] and a square [n] steps away. *)
Fixpoint clearPath (bd : Board) (from : Sq) (dx dy : Z) (n : nat) : bool :=
  match n with
  | O => true
  | S n' =>
      let s := (fst from + dx, snd from + dy) in
      match n' with
      | O => true
      | _ =>
          match pieceAt bd s with
          | Some _ => false
          | None => clearPath bd s dx dy n'
          end
      end
  end.

(** Does piece [p] standing on [from] attack [target]?  What stands on
    [target] plays no part. *)
Definition pieceAttacks (bd : Board) (from : Sq) (p : Piece) (target : Sq)
    : bool :=
  let dx := fst target - fst from in
  let dy := snd target - snd from in
  let adx := Z.abs dx in
  let ady := Z.abs dy in
  let line := ((dx =? 0) || (dy =? 0)) && negb ((dx =? 0) && (dy =? 0)) in
  let diag := (adx =? ady) && negb (dx =? 0) in
  let clear :=
    clearPath bd from (sgn dx) (sgn dy) (Z.to_nat (Z.max adx ady)) in
  match ptype p with
  | Pawn =>
      (adx =? 1)
      && (dy =? match pcolor p with White => 1 | Black => -1 end)
  | Knight => ((adx =? 1) && (ady =? 2)) || ((adx =? 2) && (ady =? 1))
  | King => (Z.max adx ady =? 1)
  | Bishop => diag && clear
  | Rook => line && clear
  | Queen => (diag || line) && clear
  end.

(** The squares holding a piece of side [who] that attacks [target]. *)
Definition attackersOn (bd : Board) (who : Color) (target : Sq) : list Sq :=
  filter (fun from =>
            match pieceAt bd from with
            | Some p => Color_eqb (pcolor p) who && pieceAttacks bd from p target
            | None => false
            end)
         allSquares.

Definition attacked (bd : Board) (who : Color) (target : Sq) : bool :=
  match attackersOn bd who target with [] => false | _ => true end.

Definition kingSquare (bd : Board) (c : Color) : option Sq :=
  find (fun s =>
          match pieceAt bd s with
          | Some p => PieceSymbol_eqb (ptype p) King && Color_eqb (pcolor p) c
          | None => false
          end)
       allSquares.

Definition kingAttacked (bd : Board) (c : Color) : bool :=
  match kingSquare bd c with
  | Some k => attacked bd (swapColor c) k
  | None => false
  end.

(** *** Moves *)

Inductive MoveKind := Normal | Capture | BigPawn | EpCapture | KSide | QSide.

Record RawMove := mkRawMove {
  rm_from : Sq;
  rm_to : Sq;
  rm_piece : PieceSymbol;
  rm_captured : option PieceSymbol;
  rm_promotion : option PieceSymbol;
  rm_kind : MoveKind
}.

Definition forward (c : Color) : Z :=
  match c with White => 1 | Black => -1 end.

(** A pawn reaching the last rank gives one move per promotion piece. *)
Definition addMove (from to : Sq) (pc : PieceSymbol)
    (captured : option PieceSymbol) (kind : MoveKind) : list RawMove :=
  if PieceSymbol_eqb pc Pawn && ((snd to =? 0) || (snd to =? 7))
  then map (fun pr => mkRawMove from to pc captured (Some pr) kind)
           [Knight; Bishop; Rook; Queen]
  else [mkRawMove from to pc captured None kind].

Definition pawnMoves (pos : Position) (from : Sq) : list RawMove :=
  let bd := board pos in
  let us := toMove pos in
  let d := forward us in
  let one := (fst from, snd from + d) in
  let two := (fst from, snd from + 2 * d) in
  let pushes :=
    if onBoard one && negb (isSome (pieceAt bd one)) then
      addMove from one Pawn None Normal
      ++ (if (snd from =? match us with White => 1 | Black => 6 end)
             && negb (isSome (pieceAt bd two))
          then addMove from two Pawn None BigPawn else [])
    else [] in
  let takes :=
    flat_map
      (fun df =>
         let to := (fst from + df, snd from + d) in
         if onBoard to then
           match pieceAt bd to with
           | Some q =>
               if Color_eqb (pcolor q) (swapColor us)
               then addMove from to Pawn (Some (ptype q)) Capture
               else []
           | None =>
               match epSquare pos with
               | Some e =>
                   if (fst e =? fst to) && (snd e =? snd to)
                   then addMove from to Pawn (Some Pawn) EpCapture
                   else []
               | None => []
               end
           end
         else [])
      (match us with White => [-1; 1] | Black => [1; -1] end) in
  pushes ++ takes.

Definition offsets (k : PieceSymbol) : list (Z * Z) :=
  match k with
  | Knight =>
      [(-2, 1); (-1, 2); (1, 2); (2, 1); (2, -1); (1, -2); (-1, -2); (-2, -1)]
  | Bishop => [(-1, 1); (1, 1); (1, -1); (-1, -1)]
  | Rook => [(0, 1); (1, 0); (0, -1); (-1, 0)]
  | Queen | King =>
      [(-1, 1); (0, 1); (1, 1); (1, 0); (1, -1); (0, -1); (-1, -1); (-1, 0)]
  | Pawn => []
  end.

(** The moves of a piece along one offset, at most [n] steps. *)
Fixpoint slide (bd : Board) (us : Color) (from cur : Sq) (k : PieceSymbol)
    (off : Z * Z) (n : nat) : list RawMove :=
  match n with
  | O => []
  | S n' =>
      let to := (fst cur + fst off, snd cur + snd off) in
      if onBoard to then
        match pieceAt bd to with
        | None =>
            addMove from to k None Normal
            ++ (if PieceSymbol_eqb k Knight || PieceSymbol_eqb k King then []
                else slide bd us from to k off n')
        | Some q =>
            if Color_eqb (pcolor q) us then []
            else addMove from to k (Some (ptype q)) Capture
        end
      else []
  end.

Definition pieceMoves (pos : Position) (from : Sq) : list RawMove :=
  match pieceAt (board pos) from with
  | Some p =>
      if Color_eqb (pcolor p) (toMove pos) then
        match ptype p with
        | Pawn => pawnMoves pos from
        | k =>
            flat_map (fun off => slide (board pos) (toMove pos) from from k off 7)
                     (offsets k)
        end
      else []
  | None => []
  end.

Definition sameSq (a b : Sq) : bool :=
  (fst a =? fst b) && (snd a =? snd b).

Definition castlingMoves (pos : Position) : list RawMove :=
  let bd := board pos in
  let us := toMove pos in
  let them := swapColor us in
  match kingSquare bd us with
  | None => []
  | Some k =>
      let sq := fun df => (fst k + df, snd k) in
      let free := fun df => negb (isSome (pieceAt bd (sq df))) in
      let safe := fun df => negb (attacked bd them (sq df)) in
      (if (match us with White => castleWK pos | Black => castleBK pos end)
          && free 1 && free 2 && safe 0 && safe 1 && safe 2
       then [mkRawMove k (sq 2) King None None KSide] else [])
      ++
      (if (match us with White => castleWQ pos | Black => castleBQ pos end)
          && free (-1) && free (-2) && free (-3)
          && safe 0 && safe (-1) && safe (-2)
       then [mkRawMove k (sq (-2)) King None None QSide] else [])
  end.

Definition isCorner (s : Sq) (f r : Z) : bool := sameSq s (f, r).

Definition makeMove (pos : Position) (mv : RawMove) : Position :=
  let us := toMove pos in
  let d := forward us in
  let from := rm_from mv in
  let to := rm_to mv in
  let placed :=
    match rm_promotion mv with
    | Some pr => mkPiece pr us
    | None => mkPiece (rm_piece mv) us
    end in
  let b1 := putAt (putAt (board pos) from None) to (Some placed) in
  let b2 :=
    match rm_kind mv with
    | EpCapture => putAt b1 (fst to, snd to - d) None
    | KSide =>
        putAt (putAt b1 (fst to + 1, snd to) None) (fst to - 1, snd to)
              (Some (mkPiece Rook us))
    | QSide =>
        putAt (putAt b1 (fst to - 2, snd to) None) (fst to + 1, snd to)
              (Some (mkPiece Rook us))
    | _ => b1
    end in
  let kingMoved := PieceSymbol_eqb (rm_piece mv) King in
  let touches := fun f r => isCorner from f r || isCorner to f r in
  let wk := castleWK pos && negb (touches 7 0)
            && negb (kingMoved && Color_eqb us White) in
  let wq := castleWQ pos && negb (touches 0 0)
            && negb (kingMoved && Color_eqb us White) in
  let bk := castleBK pos && negb (touches 7 7)
            && negb (kingMoved && Color_eqb us Black) in
  let bq := castleBQ pos && negb (touches 0 7)
            && negb (kingMoved && Color_eqb us Black) in
  {| board := b2;
     toMove := swapColor us;
     castleWK := wk; castleWQ := wq; castleBK := bk; castleBQ := bq;
     epSquare :=
       match rm_kind mv with
       | BigPawn => Some (fst to, snd to - d)
       | _ => None
       end;
     halfMoves :=
       if PieceSymbol_eqb (rm_piece mv) Pawn || isSome (rm_captured mv)
       then 0 else halfMoves pos + 1;
     moveNumber :=
       match us with
       | Black => moveNumber pos + 1
       | White => moveNumber pos
       end |}.

(** The moves chess.js lists before it drops those that leave the mover's
    king attacked; [only] restricts them to one square. *)
Definition pseudoMoves (pos : Position) (only : option Sq) : list RawMove :=
  match only with
  | None => flat_map (pieceMoves pos) allSquares ++ castlingMoves pos
  | Some s =>
      pieceMoves pos s
      ++ (match kingSquare (board pos) (toMove pos) with
          | Some k => if sameSq k s then castlingMoves pos else []
          | None => []
          end)
  end.

Definition legalMoves (pos : Position) (only : option Sq) : list RawMove :=
  match kingSquare (board pos) (toMove pos) with
  | None => pseudoMoves pos only
  | Some _ =>
      filter (fun mv =>
                negb (kingAttacked (board (makeMove pos mv)) (toMove pos)))
             (pseudoMoves pos only)
  end.

Definition isCheck (pos : Position) : bool :=
  kingAttacked (board pos) (toMove pos).

Definition noMoves (pos : Position) : bool :=
  match legalMoves pos None with [] => true | _ => false end.

(** *** Writing a FEN *)

Definition letterOf (p : Piece) : string :=
  match pcolor p, ptype p with
  | White, Pawn => "P" | White, Knight => "N" | White, Bishop => "B"
  | White, Rook => "R" | White, Queen => "Q" | White, King => "K"
  | Black, Pawn => "p" | Black, Knight => "n" | Black, Bishop => "b"
  | Black, Rook => "r" | Black, Queen => "q" | Black, King => "k"
  end.

Definition gap (empty : Z) : string :=
  if empty =? 0 then "" else numToString empty.

Fixpoint writeRow (bd : Board) (r : Z) (files : list Z) (empty : Z) : string :=
  match files with
  | [] => gap empty
  | f :: rest =>
      match pieceAt bd (f, r) with
      | None => writeRow bd r rest (empty + 1)
      | Some p => (gap empty ++ letterOf p ++ writeRow bd r rest 0)%string
      end
  end.

Definition eight : list Z := [0; 1; 2; 3; 4; 5; 6; 7].

Definition writePlacement (bd : Board) : string :=
  String.concat "/" (map (fun r => writeRow bd r eight 0) (rev eight)).

Definition writeCastling (pos : Position) : string :=
  let s := ((if castleWK pos then "K" else "")
            ++ (if castleWQ pos then "Q" else "")
            ++ (if castleBK pos then "k" else "")
            ++ (if castleBQ pos then "q" else ""))%string in
  if (s =? "")%string then "-" else s.

(** The en-passant square is written only when a pawn can take on it
    without leaving its king attacked. *)
Definition writeEp (pos : Position) : string :=
  match epSquare pos with
  | None => "-"
  | Some e =>
      let us := toMove pos in
      let canTake := fun df =>
        let from := (fst e + df, snd e - forward us) in
        match pieceAt (board pos) from with
        | Some p =>
            PieceSymbol_eqb (ptype p) Pawn && Color_eqb (pcolor p) us
            && negb (kingAttacked
                       (board (makeMove pos
                                 (mkRawMove from e Pawn (Some Pawn) None
                                            EpCapture)))
                       us)
        | None => false
        end in
      if existsb canTake [1; -1] then algebraic e else "-"
  end.

Definition writeFen (pos : Position) : string :=
  String.concat " "
    [ writePlacement (board pos); colorLetter (toMove pos);
      writeCastling pos; writeEp pos;
      numToString (halfMoves pos); numToString (moveNumber pos) ].

(** *** SAN and verbose moves *)

Definition upperOf (k : PieceSymbol) : string :=
  match k with
  | Pawn => "P" | Knight => "N" | Bishop => "B"
  | Rook => "R" | Queen => "Q" | King => "K"
  end.

Definition disambiguator (mv : RawMove) (all : list RawMove) : string :=
  let others :=
    filter (fun o =>
              PieceSymbol_eqb (rm_piece mv) (rm_piece o)
              && negb (sameSq (rm_from mv) (rm_from o))
              && sameSq (rm_to mv) (rm_to o))
           all in
  let sameRank :=
    existsb (fun o => snd (rm_from mv) =? snd (rm_from o)) others in
  let sameFile :=
    existsb (fun o => fst (rm_from mv) =? fst (rm_from o)) others in
  match others with
  | [] => ""
  | _ =>
      if sameRank && sameFile then algebraic (rm_from mv)
      else if sameFile then numToString (snd (rm_from mv) + 1)
      else fromCharCode (97 + fst (rm_from mv))
  end.

Definition isTake (mv : RawMove) : bool :=
  match rm_kind mv with Capture | EpCapture => true | _ => false end.

Definition sanOf (pos : Position) (all : list RawMove) (mv : RawMove)
    : string :=
  let body :=
    match rm_kind mv with
    | KSide => "O-O"
    | QSide => "O-O-O"
    | _ =>
        ((if PieceSymbol_eqb (rm_piece mv) Pawn then ""
          else upperOf (rm_piece mv) ++ disambiguator mv all)
         ++ (if isTake mv
             then (if PieceSymbol_eqb (rm_piece mv) Pawn
                   then fromCharCode (97 + fst (rm_from mv)) else "") ++ "x"
             else "")
         ++ algebraic (rm_to mv)
         ++ (match rm_promotion mv with
             | Some pr => "=" ++ upperOf pr
             | None => ""
             end))%string
    end in
  let after := makeMove pos mv in
  (body ++ (if isCheck after then if noMoves after then "#" else "+"
            else ""))%string.

Definition flagsOf (mv : RawMove) : string :=
  ((match rm_kind mv with
    | Normal => "n" | Capture => "c" | BigPawn => "b"
    | EpCapture => "e" | KSide => "k" | QSide => "q"
    end)
   ++ (if isSome (rm_promotion mv) then "p" else ""))%string.

Definition verbose (pos : Position) (all : list RawMove) (mv : RawMove)
    : Move :=
  {| m_color := toMove pos;
     m_from := algebraic (rm_from mv);
     m_to := algebraic (rm_to mv);
     m_piece := rm_piece mv;
     m_captured := rm_captured mv;
     m_promotion := rm_promotion mv;
     m_flags := flagsOf mv;
     m_san := sanOf pos all mv;
     m_before := writeFen pos;
     m_after := writeFen (makeMove pos mv) |}.

Definition verboseMoves (pos : Position) (only : option Sq) : list Move :=
  map (verbose pos (legalMoves pos None)) (legalMoves pos only).

(** *** Draws *)

Definition countPieces (bd : Board) (keep : Piece -> bool) : nat :=
  length (filter (fun s => match pieceAt bd s with
                           | Some p => keep p
                           | None => false
                           end) allSquares).

Definition insufficientMaterial (bd : Board) : bool :=
  let total := countPieces bd (fun _ => true) in
  let bishops := countPieces bd (fun p => PieceSymbol_eqb (ptype p) Bishop) in
  let knights := countPieces bd (fun p => PieceSymbol_eqb (ptype p) Knight) in
  let bishopSquares :=
    filter (fun s => match pieceAt bd s with
                     | Some p => PieceSymbol_eqb (ptype p) Bishop
                     | None => false
                     end) allSquares in
  let shade := fun s : Sq => Z.even (fst s + snd s) in
  if (total =? 2)%nat then true
  else if ((total =? 3) && ((bishops =? 1) || (knights =? 1)))%nat then true
  else if (total =? bishops + 2)%nat then
    forallb shade bishopSquares || forallb (fun s => negb (shade s)) bishopSquares
  else false.

(** The first four fields of a FEN: what repetition compares. *)
Definition positionKey (fenStr : string) : string :=
  String.concat " " (firstn 4 (splitOn " " fenStr)).

(** *** The instance *)

Record State := mkState {
  pos : Position;
  past : list Move
}.

Definition visited (c : State) : list string :=
  match past c with
  | [] => [writeFen (pos c)]
  | m :: _ => m_before m :: map m_after (past c)
  end.

Definition threefold (c : State) : bool :=
  let key := positionKey (writeFen (pos c)) in
  (3 <=? length (filter (fun f => (positionKey f =? key)%string) (visited c)))%nat.

Definition stalemated (c : State) : bool :=
  negb (isCheck (pos c)) && noMoves (pos c).

Definition checkmated (c : State) : bool :=
  isCheck (pos c) && noMoves (pos c).

Definition drawn (c : State) : bool :=
  (100 <=? halfMoves (pos c)) || stalemated c
  || insufficientMaterial (board (pos c)) || threefold c.

Definition matches (arg : MoveArg) (rv : RawMove * Move) : bool :=
  match arg with
  | San s => (m_san (snd rv) =? s)%string
  | FromTo from to promo =>
      (m_from (snd rv) =? from)%string && (m_to (snd rv) =? to)%string
      && match m_promotion (snd rv), promo with
         | None, _ => true
         | Some k, Some k' => PieceSymbol_eqb k k'
         | Some _, None => false
         end
  end.

Definition play (c : State) (arg : MoveArg) : option (Move * State) :=
  let all := legalMoves (pos c) None in
  match find (matches arg) (map (fun mv => (mv, verbose (pos c) all mv)) all) with
  | Some (mv, m) =>
      Some (m, {| pos := makeMove (pos c) mv; past := past c ++ [m] |})
  | None => None
  end.

Definition engine : ChessJS :=
  {| Chess := State;
     new_Chess := fun fenStr => {| pos := load fenStr; past := [] |};
     get := fun c nm =>
       match squareOf nm with
       | Some s => pieceAt (board (pos c)) s
       | None => None
       end;
     chess_attackers := fun c nm who =>
       match squareOf nm with
       | Some s => map algebraic (attackersOn (board (pos c)) who s)
       | None => []
       end;
     moves := fun c => verboseMoves (pos c) None;
     movesOf := fun c nm =>
       match squareOf nm with
       | Some s => verboseMoves (pos c) (Some s)
       | None => []
       end;
     move := play;
     fen := fun c => writeFen (pos c);
     turn := fun c => toMove (pos c);
     history := past;
     isStalemate := Some stalemated;
     isGameOver := fun c => checkmated c || stalemated c || drawn c;
     isCheckmate := checkmated;
     isDraw := drawn;
     inCheck := fun c => isCheck (pos c) |}.

End Rules.

(* ================================================================== *)
(** ** Vocabulary of the properties *)
(* ================================================================== *)

(** The descriptor of piece [p] standing on [sq], with nothing listed
    under it: what a resolution at depth 0 yields. *)
Definition leaf (sq : string) (p : Piece) : PieceInEffect :=
  {| at_ := sq; name := ptype p; color := pcolor p;
     attackers := []; defenders := [] |}.

(** A descriptor with both of its lists empty. *)
Definition shallow (d : PieceInEffect) : Prop :=
  attackers d = [] /\ defenders d = [].

(** Every descriptor listed under [d] has both of its lists empty. *)
Definition nestedShallow (d : PieceInEffect) : Prop :=
  Forall shallow (attackers d ++ defenders d).

(** The descriptors a [MoveEffect] holds at its top level. *)
Definition descriptorsOf (r : MoveEffect) : list PieceInEffect :=
  piece r
  :: match capturedPiece r with Some c => [c] | None => [] end
  ++ attacks r ++ defends r
  ++ flat_map targets (tactics r)
  ++ hp_w (hangingPieces r) ++ hp_b (hangingPieces r).

(** The 64 squares of the board scan, in the order it visits them. *)
Definition boardSquares : list string := map squareOfIndex scanIndices.

Definition isFork (t : TacticalMove) : bool :=
  match tactic t with fork => true | _ => false end.

(** The squares [n] steps along a direction, from [(x, y)] on, up to the
    first one off the board. *)
Fixpoint walk (n : nat) (x y dx dy : Z) : list string :=
  match n with
  | O => []
  | S n' =>
      if (97 <=? x) && (x <=? 104) && (1 <=? y) && (y <=? 8)
      then (fromCharCode x ++ numToString y)%string
           :: walk n' (x + dx) (y + dy) dx dy
      else []
  end.

(** The squares of the ray that leaves [start] in direction [(dx, dy)],
    nearest first. *)
Definition raySquares (start : string) (dx dy : Z) : list string :=
  match charCodeAt0 start, digitValue (charAt start 1) with
  | Some x0, Some y0 => walk 8 (x0 + dx) (y0 + dy) dx dy
  | _, _ => []
  end.

(** No name occurs twice in [l]. *)
Fixpoint distinct (l : list string) : bool :=
  match l with
  | [] => true
  | x :: t => negb (existsb (String.eqb x) t) && distinct t
  end.

(** Character [c] occurs in [s]. *)
Definition occurs (c : ascii) (s : string) : Prop :=
  In c (list_ascii_of_string s).

(** No character of [s] is matched by [\s]. *)
Definition noSpace (s : string) : Prop :=
  forall c, occurs c s -> isSpace c = false.

(** The name the ray loop forms at its round [k], from the start
    coordinates [(x0, y0)]. *)
Definition rayName (x0 y0 dx dy k : Z) : string :=
  (fromCharCode (x0 + k * dx) ++ numToString (y0 + k * dy))%string.

(** The two squares lines 187-188 look at, for a bishop of side [c] on
    [sq]. *)
Definition fianchettoFront (c : Color) (sq : string) : list string :=
  match c with
  | White =>
      if (sq =? "b2")%string then ["b3"; "b4"]
      else if (sq =? "g2")%string then ["g3"; "g4"]
      else if (sq =? "b7")%string then ["b8"; "b9"]
      else if (sq =? "g7")%string then ["g8"; "g9"]
      else []
  | Black =>
      if (sq =? "b2")%string then ["b1"; "b0"]
      else if (sq =? "g2")%string then ["g1"; "g0"]
      else if (sq =? "b7")%string then ["b6"; "b5"]
      else if (sq =? "g7")%string then ["g6"; "g5"]
      else []
  end.

Section Vocabulary.

Context {engine : ChessJS}.

Definition occupied (chess : Chess) (sq : string) : bool :=
  isSome (get chess sq).

(** The first two occupied squares of a ray. *)
Definition firstTwoOccupied (chess : Chess) (start : string) (dx dy : Z)
    : list string :=
  firstn 2 (filter (occupied chess) (raySquares start dx dy)).

(** The piece on [from] is of side [c]. *)
Definition sameSide (chess : Chess) (c : Color) (from : string) : bool :=
  match get chess from with
  | Some p => Color_eqb (pcolor p) c
  | None => false
  end.

(** The squares that attack [sq], white's first: the list
    [buildPieceInEffect] walks. *)
Definition reachable (chess : Chess) (sq : string) : list string :=
  chess_attackers chess sq White ++ chess_attackers chess sq Black.

(** The descriptors, at depth 0, of the occupied squares among [l]. *)
Definition leaves (chess : Chess) (l : list string) : list PieceInEffect :=
  flat_map (fun s => match get chess s with
                     | Some p => [leaf s p]
                     | None => []
                     end) l.

(** The bare descriptors of the occupied squares among [l] whose piece is
    not, or is, of side [c]. *)
Definition attackerPart (chess : Chess) (c : Color) (l : list string)
    : list PieceInEffect :=
  leaves chess (filter (fun from => negb (sameSide chess c from)) l).

Definition defenderPart (chess : Chess) (c : Color) (l : list string)
    : list PieceInEffect :=
  leaves chess (filter (sameSide chess c) l).

(** The move the classifier matches, if any (lines 124-133). *)
Definition matchedMove (fenStr : string) (prevFen : option string)
    : option Move :=
  match prevFen with
  | Some prev => if truthy prev then findMove fenStr prev else None
  | None => None
  end.

(** What the board scan adds to [hangingPieces[c]] on square [s]. *)
Definition hangingAt (chess : Chess) (fenStr pieceSquare : string)
    (c : Color) (s : string) : list PieceInEffect :=
  match get chess s with
  | None => []
  | Some p =>
      if (s =? pieceSquare)%string then []
      else
        match buildPieceInEffect s fenStr 1 with
        | None => []
        | Some eff =>
            if ((0 <? length (attackers eff))
                && (length (defenders eff) =? 0))%nat
               && Color_eqb (pcolor p) c
            then [eff] else []
        end
  end.

(** Square [s] adds an entry to [hangingPieces[c]]. *)
Definition hangs (chess : Chess) (fenStr pieceSquare : string) (c : Color)
    (s : string) : bool :=
  match hangingAt chess fenStr pieceSquare c s with
  | [] => false
  | _ => true
  end.

(** What the board scan adds to [defends] on square [s]. *)
Definition defendsAt (chess : Chess) (fenStr pieceSquare : string)
    (s : string) : list PieceInEffect :=
  match get chess s with
  | None => []
  | Some p =>
      if (s =? pieceSquare)%string then []
      else
        match buildPieceInEffect s fenStr 1 with
        | None => []
        | Some eff =>
            if isSome (find (fun d => (at_ d =? pieceSquare)%string)
                            (defenders eff))
               && negb (PieceSymbol_eqb (name eff) King)
            then [eff] else []
        end
  end.

(** What a legal move of the queried piece adds to [attacks]. *)
Definition attackAt (chess : Chess) (fenStr : string) (pc : Piece)
    (mv : Move) : list PieceInEffect :=
  attackStep chess fenStr pc [] mv.

(** What one direction adds to [tactics]. *)
Definition findingOn (chess : Chess) (pieceSquare : string) (pc : Piece)
    (dfs : Defense) (d : Z * Z) : list TacticalMove :=
  pinStep chess pieceSquare pc dfs [] d.

(** The tag of a result, by the order in which lines 136-195 assign it. *)
Definition tagOf (chess : Chess) (pieceSquare : string) (pc : Piece)
    (pieceEffect : PieceInEffect) (moveObj : option Move) : MoveType :=
  if fianchettoApplies chess pc pieceSquare then fianchetto
  else if (0 <? length (attackers pieceEffect))%nat then attacking
  else if stalemateNow chess then stalemate
  else match moveObj with Some m => moveTag m | None => normal end.

(** The direction steps one square along a file, a rank or a diagonal. *)
Definition unitStep (dx dy : Z) : Prop :=
  dx = 1 \/ dx = -1 \/ dy = 1 \/ dy = -1.

(** Fewer than [n] squares are left before [(x, y)], stepping by
    [(dx, dy)], leaves the board. *)
Definition within (dx dy x y : Z) (n : nat) : Prop :=
  (dx = 1 /\ 104 - x < Z.of_nat n) \/ (dx = -1 /\ x - 97 < Z.of_nat n)
  \/ (dy = 1 /\ 8 - y < Z.of_nat n) \/ (dy = -1 /\ y - 1 < Z.of_nat n).

End Vocabulary.

(* ================================================================== *)
(** ** Positions of the examples *)
(* ================================================================== *)

Definition startFen : string :=
  "rnbqkbnr/pppppppp/8/8/8/8/PPPPPPPP/RNBQKBNR w KQkq - 0 1".

(** After 1. e4 d5 2. Nf3 Nf6 3. a3, and after 3... Bg4: the bishop pins
    the knight on f3 against the queen on d1. *)
Definition beforePinFen : string :=
  "rnbqkb1r/ppp1pppp/5n2/3p4/4P3/P4N2/1PPP1PPP/RNBQKB1R b KQkq - 0 3".
Definition pinFen : string :=
  "rn1qkb1r/ppp1pppp/5n2/3p4/4P1b1/P4N2/1PPP1PPP/RNBQKB1R w KQkq - 1 4".

(** Black to move has no legal move and is not in check; the pawn on a7
    is attacked by the king on a8 and defended by the king on a6. *)
Definition stalemateFen : string := "k7/P7/K7/8/8/8/8/8 b - - 0 1".

(** The white king on e1 is attacked by the rook on e8, and by nothing
    defended. *)
Definition checkFen : string := "k3r3/8/8/8/8/8/8/4K3 w - - 0 1".

(** The knight on c3 attacks the rook on a4 and the queen on e2. *)
Definition forkFen : string := "7k/8/8/8/R7/2n5/4Q3/4K3 w - - 0 1".

(** Black has just played d7-d5; white takes en passant, e5xd6. *)
Definition beforeEnPassantFen : string := "4k3/8/8/3pP3/8/8/8/4K3 w - d6 0 2".
Definition enPassantFen : string := "4k3/8/3P4/8/8/8/8/4K3 b - - 0 2".

(** White promotes on a8; a queen there gives check along the rank. *)
Definition beforePromotionFen : string := "7k/P7/8/8/8/8/8/4K3 w - - 0 1".
Definition promotionFen : string := "Q6k/8/8/8/8/8/8/4K3 b - - 0 1".

(** White promotes on a8 and nothing attacks or is checked by the new
    queen. *)
Definition beforeQuietPromotionFen : string := "8/P6k/8/8/8/8/8/4K3 w - - 0 1".

(** The analysis of the bishop on g4 after 3... Bg4, as the source
    computes it on the rules engine above: the sample output of the
    README. *)
Definition pinAnalysis : option MoveEffect :=
  Eval vm_compute in
    moveInfo (engine := Rules.engine) "g4" pinFen (Some beforePinFen).

(** The analysis of the pawn on a7 in the stalemate. *)
Definition stalemateAnalysis : option MoveEffect :=
  Eval vm_compute in
    moveInfo (engine := Rules.engine) "a7" stalemateFen None.

(** The white rook on a1 checks the black king on a5, with the black rook
    on a8 behind it; nothing attacks the rook on a1. *)
Definition skewerFen : string := "r7/8/8/k7/8/8/8/R3K3 b - - 0 1".
Definition skewerAnalysis : option MoveEffect :=
  Eval vm_compute in moveInfo (engine := Rules.engine) "a1" skewerFen None.

(** The white pawn on b7 can promote on b8 or take the rook on a8 and
    promote there. *)
Definition promotionCaptureFen : string := "r6k/1P6/8/8/8/8/8/4K3 w - - 0 1".

(** The analysis of the knight on c3 that forks rook and queen. *)
Definition forkAnalysis : option MoveEffect :=
  Eval vm_compute in
    moveInfo (engine := Rules.engine) "c3" forkFen None.

(** The analyses of the checked king on e1 and of the rook on e8 that
    checks it. *)
Definition checkedKingAnalysis : option MoveEffect :=
  Eval vm_compute in
    moveInfo (engine := Rules.engine) "e1" checkFen None.
Definition checkingRookAnalysis : option MoveEffect :=
  Eval vm_compute in
    moveInfo (engine := Rules.engine) "e8" checkFen None.

(** The analysis of the pawn on d6 after e5xd6 en passant. *)
Definition enPassantAnalysis : option MoveEffect :=
  Eval vm_compute in
    moveInfo (engine := Rules.engine) "d6" enPassantFen
      (Some beforeEnPassantFen).

(** A white bishop on g2 behind its pawn on g3. *)
Definition fianchettoFen : string := "4k3/8/8/8/8/6P1/6B1/4K3 w - - 0 1".
Definition fianchettoAnalysis : option MoveEffect :=
  Eval vm_compute in
    moveInfo (engine := Rules.engine) "g2" fianchettoFen None.

(** The knight on c3 takes the rook on a4. *)
Definition beforeCaptureFen : string := "7k/8/8/8/R7/2n5/4Q3/4K3 b - - 0 1".
Definition captureFen : string := "7k/8/8/8/n7/8/4Q3/4K3 w - - 0 2".
Definition captureAnalysis : option MoveEffect :=
  Eval vm_compute in
    moveInfo (engine := Rules.engine) "a4" captureFen (Some beforeCaptureFen).

(** After the promotion a7-a8=Q that gives no check and that nothing
    attacks. *)
Definition quietPromotionFen : string := "Q7/7k/8/8/8/8/8/4K3 b - - 0 1".
Definition quietPromotionAnalysis : option MoveEffect :=
  Eval vm_compute in
    moveInfo (engine := Rules.engine) "a8" quietPromotionFen
      (Some beforeQuietPromotionFen).

(** After 3... Bg4 again: the bishop on g4 queried without a previous
    snapshot, and the knight on f6 that defends it. *)
Definition pinAnalysisBare : option MoveEffect :=
  Eval vm_compute in moveInfo (engine := Rules.engine) "g4" pinFen None.
Definition knightAnalysis : option MoveEffect :=
  Eval vm_compute in moveInfo (engine := Rules.engine) "f6" pinFen None.

(** The game after 1. e4. *)
Definition afterE4 : BetterChess (engine := Rules.engine) :=
  playAll ["e4"] (new_BetterChess startFen).

(* ================================================================== *)
(** ** Lists and equality tests *)
(* ================================================================== *)

Lemma Color_eqb_eq (c1 c2 : Color) : Color_eqb c1 c2 = true <-> c1 = c2.
Proof. destruct c1, c2; simpl; split; congruence. Qed.

Lemma Color_eqb_neq (c1 c2 : Color) : Color_eqb c1 c2 = false <-> c1 <> c2.
Proof. destruct c1, c2; simpl; split; congruence. Qed.

Lemma PieceSymbol_eqb_eq (k1 k2 : PieceSymbol) :
  PieceSymbol_eqb k1 k2 = true <-> k1 = k2.
Proof. destruct k1, k2; simpl; split; congruence. Qed.

Lemma MoveType_eqb_eq (t1 t2 : MoveType) :
  MoveType_eqb t1 t2 = true <-> t1 = t2.
Proof. destruct t1, t2; simpl; split; congruence. Qed.

Lemma fold_left_ext {A B} (f g : A -> B -> A) (l : list B) (a : A) :
  (forall x y, f x y = g x y) -> fold_left f l a = fold_left g l a.
Proof.
  intros Hfg. revert a.
  induction l as [|y l IH]; intros a; simpl; [reflexivity|].
  rewrite Hfg. apply IH.
Qed.

(** A loop that appends to its accumulator is a [flat_map]. *)
Lemma fold_left_app_flat_map {A B} (step : list A -> B -> list A)
    (one : B -> list A) (l : list B) (acc : list A) :
  (forall a y, step a y = a ++ one y) ->
  fold_left step l acc = acc ++ flat_map one l.
Proof.
  intros Hstep. revert acc.
  induction l as [|y l IH]; intros acc; simpl.
  - now rewrite app_nil_r.
  - rewrite IH, Hstep, <- app_assoc. reflexivity.
Qed.

Lemma filter_flat_map_nil {A B} (p : A -> bool) (one : B -> list A)
    (l : list B) :
  (forall y x, In x (one y) -> p x = false) ->
  filter p (flat_map one l) = [].
Proof.
  intros H. induction l as [|y l IH]; simpl; [reflexivity|].
  rewrite filter_app, IH, app_nil_r.
  assert (Hy : forall x, In x (one y) -> p x = false) by (apply H).
  induction (one y) as [|x xs IHx]; simpl; [reflexivity|].
  rewrite (Hy x) by (now left). apply IHx. intros; apply Hy; now right.
Qed.

Lemma distinct_NoDup (l : list string) : distinct l = true -> NoDup l.
Proof.
  induction l as [|x t IH]; cbn [distinct]; intros H; constructor.
  - apply andb_true_iff in H as [H _]. apply negb_true_iff in H.
    intros Hin. assert (Hex : existsb (String.eqb x) t = true).
    { apply existsb_exists. exists x. split; [assumption|].
      apply String.eqb_refl. }
    congruence.
  - apply IH. now apply andb_true_iff in H as [_ H].
Qed.

(** The scan visits each square once. *)
Lemma NoDup_boardSquares : NoDup boardSquares.
Proof. apply distinct_NoDup. vm_compute. reflexivity. Qed.

(* ================================================================== *)
(** ** [buildPieceInEffect] *)
(* ================================================================== *)

Section Resolver.

Context {engine : ChessJS}.

(** With nothing resolved below, the loop leaves both lists as they are. *)
Lemma pushReachable_none chess c l acc :
  fold_left (pushReachable chess c (fun _ => None)) l acc = acc.
Proof.
  revert acc. induction l as [|from l IH]; intros acc; simpl; [reflexivity|].
  rewrite IH. unfold pushReachable. now destruct (get chess from).
Qed.

(** At depth 0 the result is the bare descriptor, whatever the fuel. *)
Lemma buildPieceInEffect_fuel_leaf n sq fenStr :
  buildPieceInEffect_fuel (S n) sq fenStr 0 =
  option_map (leaf sq) (get (new_Chess fenStr) sq).
Proof.
  simpl. destruct (get (new_Chess fenStr) sq) as [pc|]; [|reflexivity].
  change (0 <? 0) with false. cbv iota.
  rewrite pushReachable_none. reflexivity.
Qed.

Lemma buildPieceInEffect_leaf sq fenStr :
  buildPieceInEffect sq fenStr 0 =
  option_map (leaf sq) (get (new_Chess fenStr) sq).
Proof. apply buildPieceInEffect_fuel_leaf. Qed.

Lemma buildPieceInEffect_fuel_S n sq fenStr depth :
  buildPieceInEffect_fuel (S n) sq fenStr depth =
  match get (new_Chess fenStr) sq with
  | None => None
  | Some pc =>
      let '(atk, dfd) :=
        fold_left
          (pushReachable (new_Chess fenStr) (pcolor pc)
             (fun from => if 0 <? depth
                          then buildPieceInEffect_fuel n from fenStr 0
                          else None))
          (reachable (new_Chess fenStr) sq) ([], []) in
      Some {| at_ := sq; name := ptype pc; color := pcolor pc;
              attackers := atk; defenders := dfd |}
  end.
Proof. reflexivity. Qed.

(** Two levels of calls are all there are: more fuel changes nothing. *)
Lemma buildPieceInEffect_fuel_enough n sq fenStr depth :
  buildPieceInEffect_fuel (S (S n)) sq fenStr depth =
  buildPieceInEffect sq fenStr depth.
Proof.
  unfold buildPieceInEffect.
  rewrite (buildPieceInEffect_fuel_S (S n)), (buildPieceInEffect_fuel_S 1).
  destruct (get (new_Chess fenStr) sq) as [pc|]; [|reflexivity].
  rewrite (fold_left_ext
             (pushReachable (new_Chess fenStr) (pcolor pc)
                (fun from => if 0 <? depth
                             then buildPieceInEffect_fuel (S n) from fenStr 0
                             else None))
             (pushReachable (new_Chess fenStr) (pcolor pc)
                (fun from => if 0 <? depth
                             then buildPieceInEffect_fuel 1 from fenStr 0
                             else None))); [reflexivity|].
  intros acc from. unfold pushReachable.
  destruct (get (new_Chess fenStr) from); [|reflexivity].
  destruct (0 <? depth); [|reflexivity].
  now rewrite !buildPieceInEffect_fuel_leaf.
Qed.

(** An occupied square always resolves. *)
Lemma buildPieceInEffect_some sq fenStr depth pc :
  get (new_Chess fenStr) sq = Some pc ->
  exists d, buildPieceInEffect sq fenStr depth = Some d
            /\ at_ d = sq /\ name d = ptype pc /\ color d = pcolor pc.
Proof.
  intros Hget. unfold buildPieceInEffect.
  rewrite buildPieceInEffect_fuel_S, Hget.
  destruct (fold_left _ _ _) as [atk dfd]. eexists; repeat split.
Qed.

Lemma buildPieceInEffect_none sq fenStr depth :
  get (new_Chess fenStr) sq = None ->
  buildPieceInEffect sq fenStr depth = None.
Proof.
  intros Hget. unfold buildPieceInEffect.
  now rewrite buildPieceInEffect_fuel_S, Hget.
Qed.

(** The loop at depth [> 0] splits the reachable squares by side. *)
Lemma pushReachable_split fenStr c l acc :
  fold_left
    (pushReachable (new_Chess fenStr) c
       (fun from => buildPieceInEffect_fuel 1 from fenStr 0))
    l acc
  = (fst acc ++ attackerPart (new_Chess fenStr) c l,
     snd acc ++ defenderPart (new_Chess fenStr) c l).
Proof.
  unfold attackerPart, defenderPart, leaves.
  revert acc. induction l as [|from l IH]; intros [atk dfd].
  - simpl. now rewrite !app_nil_r.
  - cbn [fold_left filter]. rewrite IH. unfold pushReachable, sameSide.
    rewrite buildPieceInEffect_fuel_leaf.
    destruct (get (new_Chess fenStr) from) as [p|] eqn:Hp;
      cbn [option_map fst snd negb].
    + destruct (Color_eqb (pcolor p) c); cbn [negb flat_map fst snd];
        rewrite Hp; now rewrite <- ?app_assoc.
    + cbn [flat_map]. now rewrite Hp.
Qed.

(** [buildPieceInEffect] at depth 1, in closed form. *)
Lemma buildPieceInEffect_one sq fenStr :
  buildPieceInEffect sq fenStr 1 =
  match get (new_Chess fenStr) sq with
  | Some pc =>
      Some {| at_ := sq; name := ptype pc; color := pcolor pc;
              attackers :=
                attackerPart (new_Chess fenStr) (pcolor pc)
                  (reachable (new_Chess fenStr) sq);
              defenders :=
                defenderPart (new_Chess fenStr) (pcolor pc)
                  (reachable (new_Chess fenStr) sq) |}
  | None => None
  end.
Proof.
  unfold buildPieceInEffect. rewrite buildPieceInEffect_fuel_S.
  destruct (get (new_Chess fenStr) sq) as [pc|]; [|reflexivity].
  change (0 <? 1) with true. cbv iota.
  rewrite pushReachable_split. reflexivity.
Qed.

(** *** The bare descriptors of a list of squares *)

Lemma in_leaves chess l x :
  In x (leaves chess l) <->
  exists s p, In s l /\ get chess s = Some p /\ x = leaf s p.
Proof.
  unfold leaves. rewrite in_flat_map. split.
  - intros (s & Hs & Hx). destruct (get chess s) as [p|] eqn:Hp.
    + destruct Hx as [<-|[]]. now exists s, p.
    + destruct Hx.
  - intros (s & p & Hs & Hp & ->). exists s. split; [assumption|].
    rewrite Hp. now left.
Qed.

Lemma map_at_leaves chess l :
  map at_ (leaves chess l) = filter (occupied chess) l.
Proof.
  unfold leaves, occupied.
  induction l as [|s l IH]; simpl; [reflexivity|].
  destruct (get chess s); simpl; now rewrite IH.
Qed.

Lemma filter_all {A} (p : A -> bool) (l : list A) :
  (forall x, In x l -> p x = true) -> filter p l = l.
Proof.
  induction l as [|x l IH]; intros H; simpl; [reflexivity|].
  rewrite (H x) by (now left). f_equal. apply IH. intros; apply H; now right.
Qed.

Lemma filter_split_perm {A} (p : A -> bool) (l : list A) :
  Permutation (filter (fun x => negb (p x)) l ++ filter p l) l.
Proof.
  induction l as [|x l IH]; simpl; [constructor|].
  destruct (p x); simpl.
  - apply Permutation_sym, Permutation_cons_app, Permutation_sym, IH.
  - now constructor.
Qed.

Lemma filter_split_length {A} (p : A -> bool) (l : list A) :
  (length (filter (fun x => negb (p x)) l) + length (filter p l)
   = length l)%nat.
Proof.
  rewrite <- length_app. apply Permutation_length, filter_split_perm.
Qed.

Lemma piece_eta (p : Piece) : mkPiece (ptype p) (pcolor p) = p.
Proof. now destruct p. Qed.

(** C5: For an occupied square [s] of a snapshot, the resolution at depth 1
    returns a descriptor of the occupant whose [attackers] and [defenders]
    partition the squares [attackersOf(s, white)] and
    [attackersOf(s, black)] (each of which holds a piece, as the rules
    engine guarantees): every such square gives exactly one entry, a
    defender if and only if its piece is of the occupant's side; no entry
    is in both lists; the sizes add up to the number of attacking
    squares. *)
Theorem resolve_partitions_attackers (fenStr s : string) (pc : Piece) :
  let chess := new_Chess fenStr in
  get chess s = Some pc ->
  (forall from, In from (reachable chess s) -> get chess from <> None) ->
  exists d,
    buildPieceInEffect s fenStr 1 = Some d
    /\ at_ d = s /\ name d = ptype pc /\ color d = pcolor pc
    /\ map at_ (defenders d)
       = filter (sameSide chess (pcolor pc)) (reachable chess s)
    /\ map at_ (attackers d)
       = filter (fun from => negb (sameSide chess (pcolor pc) from))
                (reachable chess s)
    /\ Forall (fun x => get chess (at_ x) = Some (mkPiece (name x) (color x))
                        /\ color x = pcolor pc)
              (defenders d)
    /\ Forall (fun x => get chess (at_ x) = Some (mkPiece (name x) (color x))
                        /\ color x <> pcolor pc)
              (attackers d)
    /\ (forall x, In x (attackers d) -> ~ In x (defenders d))
    /\ (length (attackers d) + length (defenders d)
        = length (reachable chess s))%nat
    /\ Permutation (map at_ (attackers d ++ defenders d))
                   (reachable chess s).
Proof.
  intros chess Hget Hocc.
  rewrite buildPieceInEffect_one. fold chess. rewrite Hget.
  eexists. split; [reflexivity|]. cbn [at_ name color attackers defenders].
  set (froms := reachable chess s) in *.
  set (same := sameSide chess (pcolor pc)).
  assert (Hd : map at_ (defenderPart chess (pcolor pc) froms)
               = filter same froms).
  { unfold defenderPart. rewrite map_at_leaves. apply filter_all.
    intros x Hx. apply filter_In in Hx as [Hx _]. unfold occupied.
    specialize (Hocc x Hx). now destruct (get chess x). }
  assert (Ha : map at_ (attackerPart chess (pcolor pc) froms)
               = filter (fun from => negb (same from)) froms).
  { unfold attackerPart. rewrite map_at_leaves. apply filter_all.
    intros x Hx. apply filter_In in Hx as [Hx _]. unfold occupied.
    specialize (Hocc x Hx). now destruct (get chess x). }
  assert (Hdef : Forall (fun x => get chess (at_ x)
                                  = Some (mkPiece (name x) (color x))
                                  /\ color x = pcolor pc)
                        (defenderPart chess (pcolor pc) froms)).
  { apply Forall_forall. intros x Hx. unfold defenderPart in Hx.
    apply in_leaves in Hx as (q & p & Hq & Hp & ->).
    apply filter_In in Hq as [_ Hq]. unfold same, sameSide in Hq.
    rewrite Hp in Hq. apply Color_eqb_eq in Hq.
    cbn [leaf at_ name color]. now rewrite piece_eta. }
  assert (Hatk : Forall (fun x => get chess (at_ x)
                                  = Some (mkPiece (name x) (color x))
                                  /\ color x <> pcolor pc)
                        (attackerPart chess (pcolor pc) froms)).
  { apply Forall_forall. intros x Hx. unfold attackerPart in Hx.
    apply in_leaves in Hx as (q & p & Hq & Hp & ->).
    apply filter_In in Hq as [_ Hq]. unfold sameSide in Hq.
    rewrite Hp in Hq. apply negb_true_iff, Color_eqb_neq in Hq.
    cbn [leaf at_ name color]. now rewrite piece_eta. }
  repeat split; try assumption; try reflexivity.
  - intros x Hx Hx'.
    rewrite Forall_forall in Hdef, Hatk.
    destruct (Hatk x Hx) as [_ Hne]. destruct (Hdef x Hx') as [_ He].
    contradiction.
  - rewrite <- (length_map at_ (attackerPart _ _ _)),
            <- (length_map at_ (defenderPart _ _ _)), Ha, Hd.
    apply filter_split_length.
  - rewrite map_app, Ha, Hd. apply filter_split_perm.
Qed.

(** *** Depth *)

Lemma leaf_shallow sq p : shallow (leaf sq p).
Proof. split; reflexivity. Qed.

Lemma leaves_shallow chess l : Forall shallow (leaves chess l).
Proof.
  apply Forall_forall. intros x Hx.
  apply in_leaves in Hx as (s & p & _ & _ & ->). apply leaf_shallow.
Qed.

Lemma shallow_nested d : shallow d -> nestedShallow d.
Proof. intros [Ha Hd]. unfold nestedShallow. rewrite Ha, Hd. constructor. Qed.

(** Whatever the depth asked for, what is listed under a resolved
    descriptor lists nothing itself. *)
Lemma buildPieceInEffect_nested sq fenStr depth d :
  buildPieceInEffect sq fenStr depth = Some d -> nestedShallow d.
Proof.
  destruct (0 <? depth) eqn:Hdepth.
  - unfold buildPieceInEffect. rewrite buildPieceInEffect_fuel_S, Hdepth.
    destruct (get (new_Chess fenStr) sq) as [pc|]; [|discriminate].
    rewrite pushReachable_split. intros [= <-].
    unfold nestedShallow. cbn [attackers defenders fst snd app].
    apply Forall_app. split; apply leaves_shallow.
  - unfold buildPieceInEffect. rewrite buildPieceInEffect_fuel_S, Hdepth.
    destruct (get (new_Chess fenStr) sq) as [pc|]; [|discriminate].
    rewrite pushReachable_none. intros [= <-]. constructor.
Qed.

Lemma buildPieceInEffect_zero_shallow sq fenStr d :
  buildPieceInEffect sq fenStr 0 = Some d -> shallow d.
Proof.
  rewrite buildPieceInEffect_leaf.
  destruct (get (new_Chess fenStr) sq); [|discriminate].
  intros [= <-]. apply leaf_shallow.
Qed.

End Resolver.

(* ================================================================== *)
(** ** [_getPiecesAlongRay] *)
(* ================================================================== *)

Section RayScanner.

Context {engine : ChessJS}.

Lemma leaves_cons chess s l :
  leaves chess (s :: l) =
  match get chess s with Some p => [leaf s p] | None => [] end
  ++ leaves chess l.
Proof. reflexivity. Qed.

(** Taking the first [k] descriptors is describing the first [k] occupied
    squares. *)
Lemma firstn_leaves chess l k :
  firstn k (leaves chess l) = leaves chess (firstn k (filter (occupied chess) l)).
Proof.
  revert k. induction l as [|s l IH]; intros k.
  - simpl. now rewrite !firstn_nil.
  - rewrite leaves_cons. cbn [filter]. unfold occupied at 1.
    destruct (get chess s) as [p|] eqn:Hp; cbn [isSome app].
    + destruct k as [|k]; [reflexivity|].
      cbn [firstn]. rewrite leaves_cons, Hp, IH. reflexivity.
    + apply IH.
Qed.

Lemma rayLoop_S n chess fenStr dx dy x y acc :
  rayLoop (S n) chess fenStr dx dy x y acc =
  if (97 <=? x) && (x <=? 104) && (1 <=? y) && (y <=? 8) then
    let currentSquare := (fromCharCode x ++ numToString y)%string in
    match get chess currentSquare with
    | Some _ =>
        match buildPieceInEffect currentSquare fenStr 0 with
        | None => Some acc
        | Some pieceEffect =>
            if (length (acc ++ [pieceEffect]) =? 2)%nat
            then Some (acc ++ [pieceEffect])
            else rayLoop n chess fenStr dx dy (x + dx) (y + dy)
                   (acc ++ [pieceEffect])
        end
    | None => rayLoop n chess fenStr dx dy (x + dx) (y + dy) acc
    end
  else Some acc.
Proof. reflexivity. Qed.

Lemma walk_S n x y dx dy :
  walk (S n) x y dx dy =
  if (97 <=? x) && (x <=? 104) && (1 <=? y) && (y <=? 8)
  then (fromCharCode x ++ numToString y)%string
       :: walk n (x + dx) (y + dy) dx dy
  else [].
Proof. reflexivity. Qed.

(** The loop, run for one round more than the squares that are left,
    ends, and returns the descriptors of the first occupied squares it
    meets until it holds two. *)
Lemma rayLoop_spec chess fenStr dx dy :
  (forall s, get (new_Chess fenStr) s = get chess s) ->
  forall n x y acc,
    (length acc < 2)%nat ->
    ((97 <=? x) && (x <=? 104) && (1 <=? y) && (y <=? 8) = true ->
     within dx dy x y n) ->
    rayLoop (S n) chess fenStr dx dy x y acc =
    Some (acc ++ firstn (2 - length acc) (leaves chess (walk n x y dx dy))).
Proof.
  intros Hrt. induction n as [|n IH]; intros x y acc Hacc Hin.
  - rewrite rayLoop_S.
    destruct ((97 <=? x) && (x <=? 104) && (1 <=? y) && (y <=? 8)) eqn:Hon.
    + exfalso. specialize (Hin eq_refl). unfold within in Hin.
      rewrite !andb_true_iff, !Z.leb_le in Hon. lia.
    + simpl. now rewrite firstn_nil, app_nil_r.
  - rewrite rayLoop_S, walk_S.
    destruct ((97 <=? x) && (x <=? 104) && (1 <=? y) && (y <=? 8)) eqn:Hon.
    + assert (Hnext : (97 <=? x + dx) && (x + dx <=? 104)
                      && (1 <=? y + dy) && (y + dy <=? 8) = true ->
                      within dx dy (x + dx) (y + dy) n).
      { intros _. specialize (Hin eq_refl). unfold within in *.
        rewrite Nat2Z.inj_succ in Hin. lia. }
      cbv zeta. rewrite leaves_cons.
      destruct (get chess (fromCharCode x ++ numToString y)%string)
        as [p|] eqn:Hp.
      * rewrite buildPieceInEffect_leaf, Hrt, Hp. cbn [option_map].
        rewrite length_app. cbn [length].
        destruct acc as [|a [|a' acc]]; cbn [length] in *; try lia.
        -- cbn [Nat.add Nat.eqb]. rewrite IH by (cbn [app length]; lia || assumption).
           cbn [app length Nat.sub firstn]. reflexivity.
        -- cbn [Nat.add Nat.eqb Nat.sub firstn app]. reflexivity.
      * cbn [app]. apply IH; assumption.
    + simpl. now rewrite firstn_nil, app_nil_r.
Qed.

(** The scan of a ray returns the descriptors of its first two occupied
    squares, nearest first. *)
Lemma _getPiecesAlongRay_spec chess start dx dy fenStr :
  (forall s, get (new_Chess fenStr) s = get chess s) ->
  unitStep dx dy ->
  _getPiecesAlongRay chess start dx dy fenStr =
  Some (leaves chess (firstTwoOccupied chess start dx dy)).
Proof.
  intros Hrt Hunit. unfold _getPiecesAlongRay, firstTwoOccupied, raySquares.
  destruct (charCodeAt0 start) as [x0|]; [|reflexivity].
  destruct (digitValue (charAt start 1)) as [y0|]; [|reflexivity].
  rewrite (rayLoop_spec chess fenStr dx dy Hrt 8) by
    (try (cbn [length]; lia);
     intros Hon; rewrite !andb_true_iff, !Z.leb_le in Hon;
     unfold within, unitStep in *; lia).
  cbn [app length Nat.sub]. now rewrite firstn_leaves.
Qed.

Lemma ALL_8_DIRECTIONS_unit dx dy :
  In (dx, dy) ALL_8_DIRECTIONS -> unitStep dx dy.
Proof.
  unfold ALL_8_DIRECTIONS, unitStep. simpl.
  intros H. repeat (destruct H as [H|H]; [inversion H; lia|]). destruct H.
Qed.

Lemma DIRECTIONS_unit k dx dy :
  In (dx, dy) (DIRECTIONS k) -> unitStep dx dy.
Proof.
  intros H. apply ALL_8_DIRECTIONS_unit.
  destruct k; simpl in H; simpl; tauto.
Qed.

(** The loop of [_getPiecesAlongRay] ends within its nine rounds, for each
    of the eight directions, whatever the board holds. *)
Lemma _getPiecesAlongRay_terminates chessInstance start dx dy fenStr :
  unitStep dx dy ->
  exists l, _getPiecesAlongRay chessInstance start dx dy fenStr = Some l
            /\ (length l <= 2)%nat.
Proof.
  intros Hunit. unfold _getPiecesAlongRay.
  destruct (charCodeAt0 start) as [x0|]; [|exists []; split; [reflexivity|simpl; lia]].
  destruct (digitValue (charAt start 1)) as [y0|];
    [|exists []; split; [reflexivity|simpl; lia]].
  assert (H : forall n x y acc,
             (length acc < 2)%nat ->
             ((97 <=? x) && (x <=? 104) && (1 <=? y) && (y <=? 8) = true ->
              within dx dy x y n) ->
             exists l, rayLoop (S n) chessInstance fenStr dx dy x y acc = Some l
                       /\ (length l <= 2)%nat).
  { induction n as [|n IH]; intros x y acc Hacc Hin; rewrite rayLoop_S;
      destruct ((97 <=? x) && (x <=? 104) && (1 <=? y) && (y <=? 8)) eqn:Hon;
      try (exists acc; split; [reflexivity|lia]).
    - exfalso. specialize (Hin eq_refl). unfold within in Hin.
      rewrite !andb_true_iff, !Z.leb_le in Hon. lia.
    - assert (Hnext : (97 <=? x + dx) && (x + dx <=? 104)
                      && (1 <=? y + dy) && (y + dy <=? 8) = true ->
                      within dx dy (x + dx) (y + dy) n).
      { intros _. specialize (Hin eq_refl). unfold within in *.
        rewrite Nat2Z.inj_succ in Hin. lia. }
      cbv zeta.
      destruct (get chessInstance _); [|now apply IH].
      destruct (buildPieceInEffect _ fenStr 0) as [pe|];
        [|exists acc; split; [reflexivity|lia]].
      destruct (length (acc ++ [pe]) =? 2)%nat eqn:Hlen.
      + apply Nat.eqb_eq in Hlen. eexists; split; [reflexivity|lia].
      + apply Nat.eqb_neq in Hlen. apply IH; [|assumption].
        rewrite length_app in *. simpl in *. lia. }
  apply H; [cbn [length]; lia|].
  intros Hon. rewrite !andb_true_iff, !Z.leb_le in Hon.
  unfold within, unitStep in *. lia.
Qed.

End RayScanner.

(* ================================================================== *)
(** ** [moveInfo] *)
(* ================================================================== *)

Section Orchestrator.

Context {engine : ChessJS}.

(** *** The board scan *)

Lemma scanStep_spec chess fenStr sq st i :
  scanStep chess fenStr sq st i =
  (fst st ++ defendsAt chess fenStr sq (squareOfIndex i),
   {| hp_w := hp_w (snd st)
              ++ hangingAt chess fenStr sq White (squareOfIndex i);
      hp_b := hp_b (snd st)
              ++ hangingAt chess fenStr sq Black (squareOfIndex i) |}).
Proof.
  unfold scanStep, defendsAt, hangingAt. destruct st as [dfd [hw hb]].
  cbn [fst snd hp_w hp_b].
  destruct (get chess (squareOfIndex i)) as [p|];
    [|now rewrite !app_nil_r].
  destruct (squareOfIndex i =? sq)%string; [now rewrite !app_nil_r|].
  destruct (buildPieceInEffect (squareOfIndex i) fenStr 1) as [eff|];
    [|now rewrite !app_nil_r].
  f_equal.
  - destruct (isSome _ && negb _); [reflexivity|now rewrite app_nil_r].
  - destruct ((0 <? length (attackers eff))%nat
              && (length (defenders eff) =? 0)%nat);
      cbn [andb]; [|now rewrite !app_nil_r].
    destruct (pcolor p); cbn [Color_eqb pushHanging hp_w hp_b];
      now rewrite app_nil_r.
Qed.

Lemma scanBoard_fold chess fenStr sq l st :
  fold_left (scanStep chess fenStr sq) l st =
  (fst st ++ flat_map (defendsAt chess fenStr sq) (map squareOfIndex l),
   {| hp_w := hp_w (snd st)
              ++ flat_map (hangingAt chess fenStr sq White)
                          (map squareOfIndex l);
      hp_b := hp_b (snd st)
              ++ flat_map (hangingAt chess fenStr sq Black)
                          (map squareOfIndex l) |}).
Proof.
  revert st. induction l as [|i l IH]; intros [dfd [hw hb]].
  - simpl. now rewrite !app_nil_r.
  - cbn [fold_left map flat_map]. rewrite IH, scanStep_spec.
    cbn [fst snd hp_w hp_b]. now rewrite <- !app_assoc.
Qed.

(** The scan, square by square. *)
Lemma scanBoard_spec chess fenStr sq :
  scanBoard chess fenStr sq =
  (flat_map (defendsAt chess fenStr sq) boardSquares,
   {| hp_w := flat_map (hangingAt chess fenStr sq White) boardSquares;
      hp_b := flat_map (hangingAt chess fenStr sq Black) boardSquares |}).
Proof. unfold scanBoard. now rewrite scanBoard_fold. Qed.

(** *** The attack list *)

Lemma attackStep_app chess fenStr pc acc mv :
  attackStep chess fenStr pc acc mv = acc ++ attackAt chess fenStr pc mv.
Proof.
  unfold attackAt, attackStep.
  destruct (get chess (m_to mv)); [|now rewrite app_nil_r].
  destruct (buildPieceInEffect (m_to mv) fenStr 0); [|now rewrite app_nil_r].
  destruct (negb _); [reflexivity|now rewrite app_nil_r].
Qed.

Lemma attacksOf_spec chess fenStr sq pc :
  attacksOf chess fenStr sq pc =
  flat_map (attackAt chess fenStr pc)
           (movesOf (new_Chess (replaceTurn (fen chess) (pcolor pc))) sq).
Proof.
  unfold attacksOf.
  now rewrite (fold_left_app_flat_map _ _ _ _ (attackStep_app chess fenStr pc)).
Qed.

(** *** The tactics *)

Lemma pinStep_app chess sq pc dfs acc d :
  pinStep chess sq pc dfs acc d = acc ++ findingOn chess sq pc dfs d.
Proof.
  unfold findingOn, pinStep. destruct d as [dx dy].
  destruct (_getPiecesAlongRay chess sq dx dy (fen chess)) as [ray|];
    [|now rewrite app_nil_r].
  destruct ray as [|p1 [|p2 ray]]; try now rewrite app_nil_r.
  destruct (negb _ && negb _); [reflexivity|now rewrite app_nil_r].
Qed.

(** A direction gives no finding or one, a pin or a skewer. *)
Lemma findingOn_cases chess sq pc dfs d :
  findingOn chess sq pc dfs d = []
  \/ exists t, findingOn chess sq pc dfs d = [t]
               /\ (tactic t = pin \/ tactic t = skewer).
Proof.
  unfold findingOn, pinStep. destruct d as [dx dy].
  destruct (_getPiecesAlongRay chess sq dx dy (fen chess)) as [ray|];
    [|now left].
  destruct ray as [|p1 [|p2 ray]]; try now left.
  destruct (negb _ && negb _); [|now left].
  right. eexists. split; [reflexivity|]. cbn [app tactic].
  destruct (_ && _); [now right|now left].
Qed.

Lemma tacticsOf_spec chess sq pc dfs atk :
  tacticsOf chess sq pc dfs atk =
  (if (1 <? length atk)%nat
   then [ {| tactic := fork; targets := atk |} ] else [])
  ++ (if existsb (PieceSymbol_eqb (ptype pc)) [Bishop; Rook; Queen]
      then flat_map (findingOn chess sq pc dfs) (DIRECTIONS (ptype pc))
      else []).
Proof.
  unfold tacticsOf.
  destruct (existsb _ _); [|now rewrite app_nil_r].
  now rewrite (fold_left_app_flat_map _ _ _ _ (pinStep_app chess sq pc dfs)).
Qed.

(** *** The result, field by field *)

Lemma moveInfo_spec sq fenStr prevFen r :
  moveInfo sq fenStr prevFen = Some r ->
  let chess := new_Chess fenStr in
  exists pc pe,
    get chess sq = Some pc
    /\ buildPieceInEffect sq fenStr 1 = Some pe
    /\ piece r = pe
    /\ capturedPiece r =
       match matchedMove fenStr prevFen, prevFen with
       | Some m, Some prev => capturedOf m prev
       | _, _ => None
       end
    /\ type r = tagOf chess sq pc pe (matchedMove fenStr prevFen)
    /\ defense r = defenseOf (length (attackers pe)) (length (defenders pe))
    /\ attacks r = attacksOf chess fenStr sq pc
    /\ tactics r = tacticsOf chess sq pc (defense r) (attacks r)
    /\ defends r = flat_map (defendsAt chess fenStr sq) boardSquares
    /\ hangingPieces r =
       {| hp_w := flat_map (hangingAt chess fenStr sq White) boardSquares;
          hp_b := flat_map (hangingAt chess fenStr sq Black) boardSquares |}.
Proof.
  intros H chess. unfold moveInfo in H. fold chess in H.
  destruct (get chess sq) as [pc|] eqn:Hpc; [|discriminate].
  destruct (buildPieceInEffect sq fenStr 1) as [pe|] eqn:Hpe; [|discriminate].
  rewrite scanBoard_spec in H. injection H as <-.
  exists pc, pe. repeat split; reflexivity.
Qed.

End Orchestrator.

(* ================================================================== *)
(** ** Properties of the analysis *)
(* ================================================================== *)

Section Analysis.

Context {engine : ChessJS}.

Lemma isSome_find {A} (f : A -> bool) (l : list A) :
  isSome (find f l) = true <-> exists x, In x l /\ f x = true.
Proof.
  split.
  - destruct (find f l) as [x|] eqn:Hf; [|discriminate].
    intros _. exists x. now apply find_some in Hf.
  - intros (x & Hx & Hfx). destruct (find f l) eqn:Hf; [reflexivity|].
    now rewrite (find_none _ _ Hf x Hx) in Hfx.
Qed.

Lemma in_hangingAt chess fenStr sq c s e :
  In e (hangingAt chess fenStr sq c s) <->
  exists p, s <> sq /\ get chess s = Some p /\ pcolor p = c
            /\ buildPieceInEffect s fenStr 1 = Some e
            /\ (1 <= length (attackers e))%nat
            /\ length (defenders e) = 0%nat.
Proof.
  unfold hangingAt. split.
  - destruct (get chess s) as [p|]; [|intros []].
    destruct (String.eqb_spec s sq) as [|Hne]; [intros []|].
    destruct (buildPieceInEffect s fenStr 1) as [eff|]; [|intros []].
    destruct ((0 <? length (attackers eff))%nat
              && (length (defenders eff) =? 0)%nat
              && Color_eqb (pcolor p) c) eqn:Hc; [|intros []].
    intros [<-|[]].
    rewrite !andb_true_iff, Nat.ltb_lt, Nat.eqb_eq, Color_eqb_eq in Hc.
    exists p. intuition lia.
  - intros (p & Hne & -> & Hc & -> & Ha & Hd).
    destruct (String.eqb_spec s sq); [contradiction|].
    replace ((0 <? length (attackers e))%nat
             && (length (defenders e) =? 0)%nat
             && Color_eqb (pcolor p) c) with true; [now left|].
    symmetry. rewrite !andb_true_iff, Nat.ltb_lt, Nat.eqb_eq, Color_eqb_eq.
    intuition lia.
Qed.

Lemma in_defendsAt chess fenStr sq s e :
  In e (defendsAt chess fenStr sq s) <->
  exists p, s <> sq /\ get chess s = Some p
            /\ buildPieceInEffect s fenStr 1 = Some e
            /\ (exists d, In d (defenders e) /\ at_ d = sq)
            /\ name e <> King.
Proof.
  unfold defendsAt. split.
  - destruct (get chess s) as [p|]; [|intros []].
    destruct (String.eqb_spec s sq) as [|Hne]; [intros []|].
    destruct (buildPieceInEffect s fenStr 1) as [eff|]; [|intros []].
    destruct (isSome _ && negb _) eqn:Hc; [|intros []].
    intros [<-|[]].
    rewrite andb_true_iff, isSome_find, negb_true_iff in Hc.
    destruct Hc as [(d & Hd & Hat) Hk]. apply String.eqb_eq in Hat.
    exists p. repeat split; try assumption; [now exists d|].
    intros Hking. rewrite Hking in Hk. discriminate.
  - intros (p & Hne & -> & -> & (d & Hd & Hat) & Hk).
    destruct (String.eqb_spec s sq); [contradiction|].
    replace (isSome _ && negb _) with true; [now left|].
    symmetry. rewrite andb_true_iff, isSome_find, negb_true_iff. split.
    + exists d. split; [assumption|]. now apply String.eqb_eq.
    + destruct (name e); try reflexivity. now elim Hk.
Qed.

(** The squares of the entries of [hangingPieces[c]] are the squares that
    add one, in the order of the scan. *)
Lemma map_at_hanging chess fenStr sq c l :
  map at_ (flat_map (hangingAt chess fenStr sq c) l)
  = filter (hangs chess fenStr sq c) l.
Proof.
  induction l as [|s l IH]; [reflexivity|].
  cbn [flat_map filter]. rewrite map_app, IH. unfold hangs.
  destruct (hangingAt chess fenStr sq c s) as [|e rest] eqn:Hs;
    [reflexivity|].
  unfold hangingAt in Hs.
  destruct (get chess s); [|discriminate].
  destruct (s =? sq)%string; [discriminate|].
  destruct (buildPieceInEffect s fenStr 1) as [eff|] eqn:Heff; [|discriminate].
  destruct (_ && _); [|discriminate]. injection Hs as <- <-.
  cbn [map app]. f_equal.
  unfold buildPieceInEffect in Heff. rewrite buildPieceInEffect_fuel_S in Heff.
  destruct (get (new_Chess fenStr) s); [|discriminate].
  destruct (fold_left _ _ _). now injection Heff as <-.
Qed.

(** C1 (as amended): On a snapshot that is a stalemate, the tag of the
    result is decided by the two later steps: it is [fianchetto] when the
    fianchetto refinement applies; otherwise it is [attacking] when the
    queried piece has at least one attacker, and [stalemate] only when it
    has none. *)
Theorem stalemate_tag sq fenStr prevFen r :
  let chess := new_Chess fenStr in
  stalemateNow chess = true ->
  moveInfo sq fenStr prevFen = Some r ->
  exists pc,
    get chess sq = Some pc
    /\ (fianchettoApplies chess pc sq = true -> type r = fianchetto)
    /\ (fianchettoApplies chess pc sq = false ->
        attackers (piece r) = [] -> type r = stalemate)
    /\ (fianchettoApplies chess pc sq = false ->
        attackers (piece r) <> [] -> type r = attacking).
Proof.
  intros chess Hstale H.
  destruct (moveInfo_spec _ _ _ _ H)
    as (pc & pe & Hpc & _ & Hpiece & _ & Htype & _).
  fold chess in Hpc, Htype. exists pc. split; [assumption|].
  rewrite Htype, Hpiece. unfold tagOf. rewrite Hstale.
  repeat split; intros Hf; rewrite Hf; [reflexivity| |].
  - intros ->. reflexivity.
  - intros Hne. destruct (attackers pe); [now elim Hne|reflexivity].
Qed.

(** What is listed under [hangingPieces[c]], square by square. *)
Lemma hangingOf_spec sq fenStr prevFen r :
  moveInfo sq fenStr prevFen = Some r ->
  forall c,
    hangingOf (hangingPieces r) c
    = flat_map (hangingAt (new_Chess fenStr) fenStr sq c) boardSquares.
Proof.
  intros H c.
  destruct (moveInfo_spec _ _ _ _ H)
    as (pc & pe & _ & _ & _ & _ & _ & _ & _ & _ & _ & Hh).
  rewrite Hh. now destruct c.
Qed.

Lemma in_hangingOf sq fenStr prevFen r :
  moveInfo sq fenStr prevFen = Some r ->
  forall c e,
    In e (hangingOf (hangingPieces r) c) <->
    exists s p,
      In s boardSquares /\ s <> sq
      /\ get (new_Chess fenStr) s = Some p /\ pcolor p = c
      /\ buildPieceInEffect s fenStr 1 = Some e
      /\ (1 <= length (attackers e))%nat
      /\ length (defenders e) = 0%nat.
Proof.
  intros H c e. rewrite (hangingOf_spec _ _ _ _ H), in_flat_map. split.
  - intros (s & Hs & He). apply in_hangingAt in He as (p & He).
    exists s, p. tauto.
  - intros (s & p & Hs & He). exists s. split; [assumption|].
    apply in_hangingAt. exists p. tauto.
Qed.

(** C2: In the result of a query on [sq], a descriptor is listed in
    [hangingPieces[c]] if and only if it is the depth-1 resolution of a
    board square other than [sq] that holds a piece of side [c], with at
    least one attacker and no defender.  So an entry never stands for an
    empty square or for [sq], it is filed under its own color, no piece
    with both attackers and defenders is listed, and no square is listed
    twice. *)
Theorem hanging_census sq fenStr prevFen r :
  let chess := new_Chess fenStr in
  moveInfo sq fenStr prevFen = Some r ->
  (forall c e,
      In e (hangingOf (hangingPieces r) c) <->
      exists s p,
        In s boardSquares /\ s <> sq /\ get chess s = Some p /\ pcolor p = c
        /\ buildPieceInEffect s fenStr 1 = Some e
        /\ (1 <= length (attackers e))%nat
        /\ length (defenders e) = 0%nat)
  /\ (forall c e,
         In e (hangingOf (hangingPieces r) c) ->
         at_ e <> sq /\ get chess (at_ e) <> None /\ color e = c)
  /\ (forall c e,
         In e (hangingOf (hangingPieces r) c) ->
         attackers e <> [] -> defenders e <> [] -> False)
  /\ (forall c, NoDup (map at_ (hangingOf (hangingPieces r) c))).
Proof.
  intros chess H.
  pose proof (hangingOf_spec _ _ _ _ H) as Hof.
  pose proof (in_hangingOf _ _ _ _ H) as Hiff.
  fold chess in Hof, Hiff.
  split; [exact Hiff|]. split; [|split].
  - intros c e He. apply Hiff in He
      as (s & p & _ & Hne & Hp & Hc & He & _).
    destruct (buildPieceInEffect_some s fenStr 1 p Hp)
      as (d & Hd & Hat & _ & Hcol).
    rewrite He in Hd. injection Hd as <-.
    rewrite Hat, Hcol. fold chess. rewrite Hp. repeat split; congruence.
  - intros c e He Ha Hd.
    apply Hiff in He as (_ & _ & _ & _ & _ & _ & _ & _ & Hz).
    destruct (defenders e); [now elim Hd|discriminate].
  - intros c. rewrite Hof, map_at_hanging.
    apply NoDup_filter, NoDup_boardSquares.
Qed.

(** *** Pins and skewers *)

(** What a direction adds, read off the first two occupied squares of its
    ray. *)
Lemma findingOn_spec chess sq pc dfs dx dy :
  (forall s, get (new_Chess (fen chess)) s = get chess s) ->
  unitStep dx dy ->
  findingOn chess sq pc dfs (dx, dy) =
  match firstTwoOccupied chess sq dx dy with
  | [s1; s2] =>
      match get chess s1, get chess s2 with
      | Some p1, Some p2 =>
          if negb (Color_eqb (pcolor p1) (pcolor pc))
             && negb (Color_eqb (pcolor p2) (pcolor pc))
          then [ {| tactic :=
                      if (PIECE_VALS (ptype p1) >? PIECE_VALS (ptype p2))
                         && existsb (Defense_eqb dfs) [defended; overdefended]
                      then skewer else pin;
                    targets := [leaf s1 p1; leaf s2 p2] |} ]
          else []
      | _, _ => []
      end
  | _ => []
  end.
Proof.
  intros Hrt Hunit. unfold findingOn, pinStep.
  rewrite (_getPiecesAlongRay_spec chess sq dx dy (fen chess) Hrt Hunit).
  assert (Hlen : (length (firstTwoOccupied chess sq dx dy) <= 2)%nat)
    by apply firstn_le_length.
  destruct (firstTwoOccupied chess sq dx dy) as [|s1 [|s2 [|s3 l]]];
    cbn [length] in Hlen; try lia.
  - reflexivity.
  - unfold leaves. cbn [flat_map]. now destruct (get chess s1).
  - unfold leaves. cbn [flat_map].
    destruct (get chess s1) as [p1|], (get chess s2) as [p2|];
      reflexivity.
Qed.

Lemma skewer_cond (v1 v2 : Z) (dfs : Defense) :
  (v1 >? v2) && existsb (Defense_eqb dfs) [defended; overdefended] = true
  <-> v1 > v2 /\ (dfs = defended \/ dfs = overdefended).
Proof.
  rewrite andb_true_iff, Z.gtb_gt. cbn [existsb].
  destruct dfs; cbn [Defense_eqb orb]; intuition (discriminate || lia).
Qed.

(** The findings other than the fork, direction by direction, in terms of
    the tables [DIRECTIONS] and [PIECE_VALS] of the source. *)
Lemma findings_by_direction sq fenStr prevFen r pc :
  let chess := new_Chess fenStr in
  (forall s, get (new_Chess (fen chess)) s = get chess s) ->
  moveInfo sq fenStr prevFen = Some r ->
  get chess sq = Some pc ->
  In (ptype pc) [Bishop; Rook; Queen] ->
  let finding := findingOn chess sq pc (defense r) in
  filter (fun t => negb (isFork t)) (tactics r)
  = flat_map finding (DIRECTIONS (ptype pc))
  /\ forall dx dy,
      In (dx, dy) (DIRECTIONS (ptype pc)) ->
      (length (finding (dx, dy)) <= 1)%nat
      /\ (finding (dx, dy) <> [] <->
          exists s1 s2 p1 p2,
            firstTwoOccupied chess sq dx dy = [s1; s2]
            /\ get chess s1 = Some p1 /\ get chess s2 = Some p2
            /\ pcolor p1 <> pcolor pc /\ pcolor p2 <> pcolor pc)
      /\ (forall t,
             In t (finding (dx, dy)) ->
             exists s1 s2 p1 p2,
               firstTwoOccupied chess sq dx dy = [s1; s2]
               /\ get chess s1 = Some p1 /\ get chess s2 = Some p2
               /\ targets t = [leaf s1 p1; leaf s2 p2]
               /\ (tactic t = skewer <->
                   PIECE_VALS (ptype p1) > PIECE_VALS (ptype p2)
                   /\ (defense r = defended \/ defense r = overdefended))
               /\ (tactic t = pin <->
                   ~ (PIECE_VALS (ptype p1) > PIECE_VALS (ptype p2)
                      /\ (defense r = defended
                          \/ defense r = overdefended)))).
Proof.
  intros chess Hrt H Hpc Hkind finding. subst finding.
  destruct (moveInfo_spec _ _ _ _ H)
    as (pc' & pe & Hpc' & _ & _ & _ & _ & _ & _ & Htac & _).
  fold chess in Hpc', Htac. rewrite Hpc in Hpc'. injection Hpc' as <-.
  split.
  - rewrite Htac, tacticsOf_spec, filter_app.
    replace (existsb (PieceSymbol_eqb (ptype pc)) [Bishop; Rook; Queen])
      with true
      by (cbn [In] in Hkind; cbn [existsb];
          destruct Hkind as [<-|[<-|[<-|[]]]]; reflexivity).
    replace (filter (fun t => negb (isFork t))
               (if (1 <? length (attacks r))%nat
                then [ {| tactic := fork; targets := attacks r |} ] else []))
      with (@nil TacticalMove) by (now destruct (1 <? _)%nat).
    cbn [app]. apply filter_all. intros t Ht.
    apply in_flat_map in Ht as (d & _ & Ht).
    destruct (findingOn_cases chess sq pc (defense r) d)
      as [Hnil|(t' & Hone & Hk)].
    + rewrite Hnil in Ht. destruct Ht.
    + rewrite Hone in Ht. destruct Ht as [<-|[]].
      unfold isFork. now destruct Hk as [-> | ->].
  - intros dx dy Hd. apply DIRECTIONS_unit in Hd.
    rewrite (findingOn_spec chess sq pc _ dx dy Hrt Hd).
    destruct (firstTwoOccupied chess sq dx dy) as [|s1 [|s2 [|s3 l]]] eqn:Htwo;
      try (split; [cbn [length]; lia|];
           split; [split; [intros Hne; now elim Hne
                          |intros (? & ? & ? & ? & [=] & _)]
                  |intros t []]).
    destruct (get chess s1) as [p1|] eqn:Hp1;
      [|split; [cbn [length]; lia|];
        split; [split; [intros Hne; now elim Hne
                       |intros (? & ? & ? & ? & [= <- <-] & Hq & _);
                        congruence]
               |intros t []]].
    destruct (get chess s2) as [p2|] eqn:Hp2;
      [|split; [cbn [length]; lia|];
        split; [split; [intros Hne; now elim Hne
                       |intros (? & ? & ? & ? & [= <- <-] & _ & Hq & _);
                        congruence]
               |intros t []]].
    destruct (negb (Color_eqb (pcolor p1) (pcolor pc))
              && negb (Color_eqb (pcolor p2) (pcolor pc))) eqn:Hen.
    + rewrite andb_true_iff, !negb_true_iff, !Color_eqb_neq in Hen.
      split; [cbn [length]; lia|]. split.
      * split; [intros _; now exists s1, s2, p1, p2|discriminate].
      * intros t [<-|[]]. exists s1, s2, p1, p2. cbn [tactic targets].
        pose proof (skewer_cond (PIECE_VALS (ptype p1))
                      (PIECE_VALS (ptype p2)) (defense r)) as Hsk.
        destruct ((PIECE_VALS (ptype p1) >? PIECE_VALS (ptype p2))
                  && existsb (Defense_eqb (defense r))
                             [defended; overdefended]);
          intuition (try discriminate; try congruence).
    + split; [cbn [length]; lia|]. split.
      * split; [intros Hne; now elim Hne|].
        intros (? & ? & q1 & q2 & [= <- <-] & Hq1 & Hq2 & Hc1 & Hc2).
        rewrite Hp1 in Hq1. rewrite Hp2 in Hq2.
        injection Hq1 as <-. injection Hq2 as <-.
        apply Color_eqb_neq in Hc1, Hc2. now rewrite Hc1, Hc2 in Hen.
      * intros t [].
Qed.

(** C3: For a queried bishop, rook or queen, the findings other than the
    fork are those of the directions of its kind, taken in turn: the four
    diagonals for a bishop, the four orthogonals for a rook, all eight for
    a queen.  A direction gives at most one finding; it gives one if and
    only if the first two occupied squares of its ray both hold pieces of
    the side opposite the queried piece; the targets of that finding are
    the front piece, then the back piece; it is a [skewer] if and only if
    the front piece is worth strictly more than the back piece (pawn 1,
    knight 3, bishop 3, rook 5, queen 9, king 100) and the defense tag of
    the result is [defended] or [overdefended], and a [pin] otherwise. *)
Theorem pin_skewer_by_direction sq fenStr prevFen r pc :
  let chess := new_Chess fenStr in
  let value := fun k : PieceSymbol =>
    match k with
    | Pawn => 1
    | Knight => 3
    | Bishop => 3
    | Rook => 5
    | Queen => 9
    | King => 100
    end in
  let orthogonals := [ (0, 1); (0, -1); (1, 0); (-1, 0) ] in
  let diagonals := [ (1, 1); (1, -1); (-1, 1); (-1, -1) ] in
  let rays :=
    match ptype pc with
    | Bishop => diagonals
    | Rook => orthogonals
    | Queen => orthogonals ++ diagonals
    | _ => []
    end in
  (forall s, get (new_Chess (fen chess)) s = get chess s) ->
  moveInfo sq fenStr prevFen = Some r ->
  get chess sq = Some pc ->
  In (ptype pc) [Bishop; Rook; Queen] ->
  let finding := findingOn chess sq pc (defense r) in
  filter (fun t => negb (isFork t)) (tactics r) = flat_map finding rays
  /\ forall dx dy,
      In (dx, dy) rays ->
      (length (finding (dx, dy)) <= 1)%nat
      /\ (finding (dx, dy) <> [] <->
          exists s1 s2 p1 p2,
            firstTwoOccupied chess sq dx dy = [s1; s2]
            /\ get chess s1 = Some p1 /\ get chess s2 = Some p2
            /\ pcolor p1 <> pcolor pc /\ pcolor p2 <> pcolor pc)
      /\ (forall t,
             In t (finding (dx, dy)) ->
             exists s1 s2 p1 p2,
               firstTwoOccupied chess sq dx dy = [s1; s2]
               /\ get chess s1 = Some p1 /\ get chess s2 = Some p2
               /\ targets t = [leaf s1 p1; leaf s2 p2]
               /\ (tactic t = skewer <->
                   value (ptype p1) > value (ptype p2)
                   /\ (defense r = defended \/ defense r = overdefended))
               /\ (tactic t = pin <->
                   ~ (value (ptype p1) > value (ptype p2)
                      /\ (defense r = defended
                          \/ defense r = overdefended)))).
Proof.
  intros chess value orthogonals diagonals rays Hrt H Hpc Hkind finding.
  assert (Hrays : DIRECTIONS (ptype pc) = rays).
  { subst rays orthogonals diagonals. cbn [In] in Hkind.
    destruct Hkind as [<-|[<-|[<-|[]]]]; reflexivity. }
  assert (Hval : forall k, PIECE_VALS k = value k)
    by (intros []; reflexivity).
  destruct (findings_by_direction sq fenStr prevFen r pc Hrt H Hpc Hkind)
    as (Hall & Hdir).
  rewrite <- Hrays. split; [exact Hall|].
  intros dx dy Hd. destruct (Hdir dx dy Hd) as (Hlen & Hiff & Ht).
  split; [exact Hlen|]. split; [exact Hiff|].
  intros t Hin.
  destruct (Ht t Hin) as (s1 & s2 & p1 & p2 & Htwo & Hp1 & Hp2 & Htg & Hsk & Hpin).
  exists s1, s2, p1, p2. rewrite <- !Hval.
  split; [exact Htwo|]. split; [exact Hp1|]. split; [exact Hp2|].
  split; [exact Htg|]. split; [exact Hsk|exact Hpin].
Qed.

(** *** Depth of the descriptors *)

Lemma rayLoop_shallow n chess fenStr dx dy x y acc l :
  Forall shallow acc ->
  rayLoop n chess fenStr dx dy x y acc = Some l ->
  Forall shallow l.
Proof.
  revert x y acc. induction n as [|n IH]; intros x y acc Hacc; [discriminate|].
  rewrite rayLoop_S.
  destruct (_ && _); [|now intros [= <-]]. cbv zeta.
  destruct (get chess _); [|now apply IH].
  destruct (buildPieceInEffect _ fenStr 0) as [pe|] eqn:Hpe;
    [|now intros [= <-]].
  assert (Hacc' : Forall shallow (acc ++ [pe])).
  { apply Forall_app. split; [assumption|]. constructor; [|constructor].
    now apply buildPieceInEffect_zero_shallow in Hpe. }
  destruct (_ =? 2)%nat; [now intros [= <-]|now apply IH].
Qed.

Lemma findingOn_shallow chess sq pc dfs d t :
  In t (findingOn chess sq pc dfs d) -> Forall shallow (targets t).
Proof.
  unfold findingOn, pinStep. destruct d as [dx dy].
  destruct (_getPiecesAlongRay chess sq dx dy (fen chess)) as [ray|] eqn:Hray;
    [|intros []].
  assert (Hsh : Forall shallow ray).
  { unfold _getPiecesAlongRay in Hray.
    destruct (charCodeAt0 sq); [|injection Hray as <-; constructor].
    destruct (digitValue _); [|injection Hray as <-; constructor].
    eapply rayLoop_shallow; [|exact Hray]. constructor. }
  destruct ray as [|p1 [|p2 ray]]; try (intros []).
  destruct (negb _ && negb _); [|intros []].
  intros [<-|[]]. cbn [targets].
  inversion Hsh as [|? ? H1 Hsh']. inversion Hsh' as [|? ? H2 _].
  constructor; [assumption|]. constructor; [assumption|]. constructor.
Qed.

(** C6: In a result, whatever is listed under a descriptor of the fields
    [piece], [capturedPiece], [attacks], [defends], [hangingPieces] or of
    the targets of a tactic has its own [attackers] and [defenders]
    empty. *)
Theorem nested_descriptors_shallow sq fenStr prevFen r :
  moveInfo sq fenStr prevFen = Some r ->
  forall d,
    In d (descriptorsOf r) ->
    forall x,
      In x (attackers d ++ defenders d) ->
      attackers x = [] /\ defenders x = [].
Proof.
  intros H d Hd.
  enough (Hn : nestedShallow d).
  { intros x Hx. unfold nestedShallow in Hn.
    rewrite Forall_forall in Hn. exact (Hn x Hx). }
  destruct (moveInfo_spec _ _ _ _ H)
    as (pc & pe & Hpc & Hpe & Hpiece & Hcap & _ & _ & Hatk & Htac & Hdfd & Hh).
  set (chess := new_Chess fenStr) in *.
  assert (Hattacks : forall e, In e (attacks r) -> shallow e).
  { intros e He. rewrite Hatk, attacksOf_spec in He.
    apply in_flat_map in He as (m & _ & He).
    unfold attackAt, attackStep in He.
    destruct (get chess (m_to m)); [|destruct He].
    destruct (buildPieceInEffect (m_to m) fenStr 0) as [te|] eqn:Hte;
      [|destruct He].
    destruct (negb _); [|destruct He]. destruct He as [<-|[]].
    now apply buildPieceInEffect_zero_shallow in Hte. }
  unfold descriptorsOf in Hd. destruct Hd as [<-|Hd].
  { rewrite Hpiece. eapply buildPieceInEffect_nested; eassumption. }
  rewrite !in_app_iff in Hd.
  destruct Hd as [Hd|[Hd|[Hd|[Hd|[Hd|Hd]]]]].
  - rewrite Hcap in Hd.
    destruct (matchedMove fenStr prevFen) as [m|]; [|destruct Hd].
    destruct prevFen as [prev|]; [|destruct Hd].
    unfold capturedOf in Hd.
    destruct (get (new_Chess prev) (m_to m)); [|destruct Hd].
    destruct (buildPieceInEffect (m_to m) prev 0) as [cp|] eqn:Hcp;
      [|destruct Hd].
    destruct Hd as [<-|[]].
    apply buildPieceInEffect_zero_shallow in Hcp as [Ha Hb].
    apply shallow_nested. split; assumption.
  - apply shallow_nested, Hattacks, Hd.
  - rewrite Hdfd in Hd. apply in_flat_map in Hd as (s & _ & Hd).
    apply in_defendsAt in Hd as (p & _ & _ & Hb & _).
    eapply buildPieceInEffect_nested; eassumption.
  - apply in_flat_map in Hd as (t & Ht & Hd).
    rewrite Htac, tacticsOf_spec in Ht. apply in_app_iff in Ht as [Ht|Ht].
    + destruct (1 <? _)%nat; [|destruct Ht]. destruct Ht as [<-|[]].
      apply shallow_nested, Hattacks, Hd.
    + destruct (existsb _ _); [|destruct Ht].
      apply in_flat_map in Ht as (dir & _ & Ht).
      apply findingOn_shallow in Ht. rewrite Forall_forall in Ht.
      apply shallow_nested, Ht, Hd.
  - rewrite Hh in Hd. cbn [hp_w] in Hd.
    apply in_flat_map in Hd as (s & _ & Hd).
    apply in_hangingAt in Hd as (p & _ & _ & _ & Hb & _).
    eapply buildPieceInEffect_nested; eassumption.
  - rewrite Hh in Hd. cbn [hp_b] in Hd.
    apply in_flat_map in Hd as (s & _ & Hd).
    apply in_hangingAt in Hd as (p & _ & _ & _ & Hb & _).
    eapply buildPieceInEffect_nested; eassumption.
Qed.

(** *** Kings in the board scan *)

(** C10 (as amended): The exclusion of kings is in the [defends] list
    only: a king on a board square other than the queried one, with at
    least one attacker and no defender at depth 1, is listed in
    [hangingPieces] under its side; no king is ever listed in [defends],
    which holds the pieces other than kings, off the queried square, one
    of whose defenders stands on the queried square. *)
Theorem king_hanging_not_defended sq fenStr prevFen r :
  let chess := new_Chess fenStr in
  moveInfo sq fenStr prevFen = Some r ->
  (forall s p e,
      In s boardSquares -> s <> sq ->
      get chess s = Some p -> ptype p = King ->
      buildPieceInEffect s fenStr 1 = Some e ->
      (1 <= length (attackers e))%nat -> length (defenders e) = 0%nat ->
      In e (hangingOf (hangingPieces r) (pcolor p)))
  /\ (forall e, In e (defends r) -> name e <> King)
  /\ (forall e,
         In e (defends r) <->
         exists s p,
           In s boardSquares /\ s <> sq /\ get chess s = Some p
           /\ buildPieceInEffect s fenStr 1 = Some e
           /\ (exists d, In d (defenders e) /\ at_ d = sq)
           /\ ptype p <> King).
Proof.
  intros chess H.
  pose proof (in_hangingOf _ _ _ _ H) as Hiff.
  destruct (moveInfo_spec _ _ _ _ H)
    as (pc & pe & _ & _ & _ & _ & _ & _ & _ & _ & Hdfd & _).
  fold chess in Hiff, Hdfd.
  assert (Hdef : forall e,
             In e (defends r) <->
             exists s p,
               In s boardSquares /\ s <> sq /\ get chess s = Some p
               /\ buildPieceInEffect s fenStr 1 = Some e
               /\ (exists d, In d (defenders e) /\ at_ d = sq)
               /\ ptype p <> King).
  { intros e. rewrite Hdfd, in_flat_map. split.
    - intros (s & Hs & He). apply in_defendsAt in He
        as (p & Hne & Hp & Hb & Hd & Hk).
      exists s, p. repeat split; try assumption.
      destruct (buildPieceInEffect_some s fenStr 1 p Hp)
        as (e' & He' & _ & Hname & _).
      rewrite Hb in He'. injection He' as <-. congruence.
    - intros (s & p & Hs & Hne & Hp & Hb & Hd & Hk). exists s.
      split; [assumption|]. apply in_defendsAt. exists p.
      repeat split; try assumption.
      destruct (buildPieceInEffect_some s fenStr 1 p Hp)
        as (e' & He' & _ & Hname & _).
      rewrite Hb in He'. injection He' as <-. congruence. }
  repeat split.
  - intros s p e Hs Hne Hp _ Hb Ha Hd. apply Hiff. exists s, p. tauto.
  - intros e He. apply Hdef in He as (s & p & _ & _ & Hp & Hb & _ & Hk).
    destruct (buildPieceInEffect_some s fenStr 1 p Hp)
      as (e' & He' & _ & Hname & _).
    rewrite Hb in He'. injection He' as <-. congruence.
  - apply Hdef.
  - apply Hdef.
Qed.

(** *** The captured piece *)

(** The [capturedPiece] of a result describes what stood on the matched
    move's destination in the previous position, and is absent when that
    square was empty. *)
Lemma capturedPiece_spec sq fenStr prev r m :
  moveInfo sq fenStr (Some prev) = Some r ->
  matchedMove fenStr (Some prev) = Some m ->
  capturedPiece r =
  option_map (leaf (m_to m)) (get (new_Chess prev) (m_to m)).
Proof.
  intros H Hm.
  destruct (moveInfo_spec _ _ _ _ H) as (pc & pe & _ & _ & _ & Hcap & _).
  rewrite Hcap, Hm. unfold capturedOf.
  rewrite buildPieceInEffect_leaf.
  now destruct (get (new_Chess prev) (m_to m)).
Qed.

End Analysis.

(* ================================================================== *)
(** ** The [BetterChess] methods *)
(* ================================================================== *)

Section Methods.

Context {engine : ChessJS}.

(** A step of the ledger changes the one count it names, by [d], and no
    other. *)
Lemma bumpSide_count m c k d c' k' :
  count (side (bumpSide m c k d) c') k' =
  option_map
    (fun z => if Color_eqb c c' && PieceSymbol_eqb k k' then z + d else z)
    (count (side m c') k').
Proof. destruct c, c', k, k'; reflexivity. Qed.

(** The ledger after [moveAndAnalyze]: one step for the captured piece,
    one for a result tagged [promotion]. *)
Lemma moveAndAnalyze_ledger arg this mv chess' :
  move (super this) arg = Some (mv, chess') ->
  let analysis := moveInfo (m_to mv) (m_after mv) (Some (m_before mv)) in
  let afterCapture :=
    match analysis with
    | Some a =>
        match capturedPiece a with
        | Some pc => bumpSide (material this) (turn chess') (name pc) (-1)
        | None => material this
        end
    | None => material this
    end in
  moveAndAnalyze arg this =
  (analysis,
   {| super := chess';
      material :=
        match analysis, m_promotion mv with
        | Some a, Some promoted =>
            if MoveType_eqb (type a) promotion
            then bumpSide afterCapture (swapColor (turn chess')) promoted 1
            else afterCapture
        | _, _ => afterCapture
        end |}).
Proof.
  intros Hmove. cbv zeta.
  unfold moveAndAnalyze, bind, super_move, super_turn. rewrite Hmove.
  cbn [super material].
  destruct (moveInfo (m_to mv) (m_after mv) (Some (m_before mv))) as [a|];
    [destruct (capturedPiece a) as [pc|]|];
    unfold material_bump, when, ret; cbn [super material];
    try destruct (MoveType_eqb (type a) promotion);
    destruct (m_promotion mv) as [k|];
    try destruct (turn chess'); reflexivity.
Qed.

(** A refused move leaves the instance as it was. *)
Lemma moveAndAnalyze_refused arg this :
  move (super this) arg = None ->
  moveAndAnalyze arg this = (None, this).
Proof.
  intros Hmove.
  unfold moveAndAnalyze, bind, super_move, super_turn. rewrite Hmove.
  unfold when, ret. reflexivity.
Qed.

(** The result of [getAnalysisAt] does not depend on the ledger, nor on
    the history beyond the position after the last move but one. *)
Lemma getAnalysisAt_pure square (this that : BetterChess) :
  fen (super this) = fen (super that) ->
  option_map m_after
    (jsNth (history (super this))
           (Z.of_nat (length (history (super this))) - 2))
  = option_map m_after
      (jsNth (history (super that))
             (Z.of_nat (length (history (super that))) - 2)) ->
  fst (getAnalysisAt square this) = fst (getAnalysisAt square that).
Proof.
  intros Hfen Hprev.
  unfold getAnalysisAt, bind, this_history, this_fen, ret. cbn [fst].
  rewrite Hfen.
  destruct (jsNth (history (super this)) _) as [m|],
           (jsNth (history (super that)) _) as [m'|];
    cbn [option_map] in Hprev; try discriminate; [|reflexivity].
  injection Hprev as ->. reflexivity.
Qed.

End Methods.

(* ================================================================== *)
(** ** Further properties: strings *)
(* ================================================================== *)

(** [includes] with a one-character needle tells whether the character
    occurs. *)
Lemma prefix_char c s :
  prefix (String c EmptyString) s = true <->
  exists rest, s = String c rest.
Proof.
  destruct s as [|b s]; cbn [prefix].
  - split; [discriminate|intros (? & [=])].
  - destruct (ascii_dec c b) as [->|Hne].
    + split; [intros _; now exists s|intros _; now destruct s].
    + split; [discriminate|]. intros (rest & [= -> _]). now elim Hne.
Qed.

Lemma includes_char s c :
  includes s (String c EmptyString) = true <-> occurs c s.
Proof.
  unfold includes, occurs. induction s as [|b s IH].
  - cbn. split; [discriminate|intros []].
  - cbn [index list_ascii_of_string In].
    destruct (prefix (String c EmptyString) (String b s)) eqn:Hp.
    + apply prefix_char in Hp as (rest & [= -> _]). split; [now left|reflexivity].
    + destruct (index 0 (String c EmptyString) s) eqn:Hi.
      * split; [intros _; right; now apply IH|reflexivity].
      * split; [discriminate|]. intros [->|Hin].
        -- assert (Ht : prefix (String c EmptyString) (String c s) = true)
             by (apply prefix_char; now exists s).
           congruence.
        -- apply IH in Hin. discriminate.
Qed.

Lemma includes_char_false s c :
  includes s (String c EmptyString) = false <-> ~ occurs c s.
Proof.
  rewrite <- includes_char. destruct (includes s _); split; congruence.
Qed.

Lemma prefix_app p s :
  prefix p s = true <-> exists rest, s = (p ++ rest)%string.
Proof.
  revert s. induction p as [|a p IH]; intros s.
  - split; [intros _; now exists s|intros _; now destruct s].
  - destruct s as [|b s]; cbn [prefix append].
    + split; [discriminate|intros (? & [=])].
    + destruct (ascii_dec a b) as [->|Hne].
      * rewrite IH. split; intros (rest & H); exists rest; congruence.
      * split; [discriminate|]. intros (rest & [= -> _]). now elim Hne.
Qed.

(** X1: [getMoveCategory] never answers [neutral]; it answers by the
    first of these that holds: the SAN starts with O-O (castle), it holds
    a # (mate), a + (check), an x (capture), an = (promotion); and
    [developing] when none does. *)
Theorem getMoveCategory_table san :
  let castles := exists rest, san = ("O-O" ++ rest)%string in
  getMoveCategory san <> Category.neutral
  /\ (getMoveCategory san = Category.castle <-> castles)
  /\ (getMoveCategory san = Category.mate <->
      ~ castles /\ occurs "#" san)
  /\ (getMoveCategory san = Category.check <->
      ~ castles /\ ~ occurs "#" san /\ occurs "+" san)
  /\ (getMoveCategory san = Category.capture <->
      ~ castles /\ ~ occurs "#" san /\ ~ occurs "+" san /\ occurs "x" san)
  /\ (getMoveCategory san = Category.promotion <->
      ~ castles /\ ~ occurs "#" san /\ ~ occurs "+" san
      /\ ~ occurs "x" san /\ occurs "=" san)
  /\ (getMoveCategory san = Category.developing <->
      ~ castles /\ ~ occurs "#" san /\ ~ occurs "+" san
      /\ ~ occurs "x" san /\ ~ occurs "=" san).
Proof.
  intros castles. unfold getMoveCategory.
  pose proof (prefix_app "O-O" san) as Hc. fold castles in Hc.
  pose proof (includes_char san "#") as H1.
  pose proof (includes_char san "+") as H2.
  pose proof (includes_char san "x") as H3.
  pose proof (includes_char san "=") as H4.
  destruct (prefix "O-O" san);
    [|destruct (includes san "#");
      [|destruct (includes san "+");
        [|destruct (includes san "x");
          [|destruct (includes san "=")]]]];
    repeat split; try discriminate; intuition discriminate.
Qed.

(* ================================================================== *)
(** ** Further properties: the resolver and the ray scanner *)
(* ================================================================== *)

Section FurtherResolver.

Context {engine : ChessJS}.

(** X2: The depth argument of [buildPieceInEffect] only tells whether to
    list one level: at any depth of 0 or less the result is the bare
    descriptor of the occupant, at any depth above 0 it is the result at
    depth 1; and the result is [null] exactly on an empty square. *)
Theorem buildPieceInEffect_depth sq fenStr depth :
  (depth <= 0 ->
   buildPieceInEffect sq fenStr depth
   = option_map (leaf sq) (get (new_Chess fenStr) sq))
  /\ (0 < depth ->
      buildPieceInEffect sq fenStr depth = buildPieceInEffect sq fenStr 1)
  /\ (buildPieceInEffect sq fenStr depth = None <->
      get (new_Chess fenStr) sq = None).
Proof.
  repeat split.
  - intros Hd. unfold buildPieceInEffect.
    rewrite buildPieceInEffect_fuel_S.
    replace (0 <? depth) with false by (symmetry; apply Z.ltb_ge; lia).
    destruct (get (new_Chess fenStr) sq) as [pc|]; [|reflexivity].
    now rewrite pushReachable_none.
  - intros Hd. unfold buildPieceInEffect.
    rewrite !buildPieceInEffect_fuel_S.
    replace (0 <? depth) with true by (symmetry; apply Z.ltb_lt; lia).
    reflexivity.
  - intros Hnone. destruct (get (new_Chess fenStr) sq) as [pc|] eqn:Hpc;
      [|reflexivity].
    destruct (buildPieceInEffect_some sq fenStr depth pc Hpc) as (d & Hd & _).
    congruence.
  - apply buildPieceInEffect_none.
Qed.

(** *** Lists: the first entries that pass a test *)

Lemma firstn1_filter {A} (p : A -> bool) (l : list A) (b d : A) :
  firstn 1 (filter p l) = [b] ->
  exists j, (j < length l)%nat /\ nth j l d = b /\ p b = true
            /\ forall m, (m < j)%nat -> p (nth m l d) = false.
Proof.
  induction l as [|x l IH]; cbn [filter]; [discriminate|].
  destruct (p x) eqn:Hx.
  - intros [= ->]. exists 0%nat. cbn [length nth].
    repeat split; [lia|assumption|]. intros m Hm. lia.
  - intros H. destruct (IH H) as (j & Hj & Hn & Hb & Hlow).
    exists (S j). cbn [length nth]. repeat split; [lia|assumption..|].
    intros [|m] Hm; [assumption|]. apply Hlow. lia.
Qed.

Lemma firstn2_filter {A} (p : A -> bool) (l : list A) (a b d : A) :
  firstn 2 (filter p l) = [a; b] ->
  exists i j, (i < j < length l)%nat
              /\ nth i l d = a /\ nth j l d = b
              /\ p a = true /\ p b = true
              /\ forall m, (m < j)%nat -> m <> i -> p (nth m l d) = false.
Proof.
  induction l as [|x l IH]; cbn [filter]; [discriminate|].
  destruct (p x) eqn:Hx.
  - cbn [firstn]. intros [= -> H].
    destruct (firstn1_filter p l b d H) as (j & Hj & Hn & Hb & Hlow).
    exists 0%nat, (S j). cbn [length nth].
    repeat split; try assumption; try lia.
    intros [|m] Hm Hne; [lia|]. apply Hlow. lia.
  - intros H. destruct (IH H) as (i & j & Hij & Hi & Hj & Ha & Hb & Hlow).
    exists (S i), (S j). cbn [length nth].
    repeat split; try assumption; try lia.
    intros [|m] Hm Hne; [assumption|]. apply Hlow; lia.
Qed.

(** The squares of a walk are those the loop names, round after round,
    and all of them are on the board. *)
Lemma nth_walk n dx dy : forall x y i,
  (i < length (walk n x y dx dy))%nat ->
  nth i (walk n x y dx dy) EmptyString
  = rayName x y dx dy (Z.of_nat i)
    /\ 97 <= x + Z.of_nat i * dx <= 104
    /\ 1 <= y + Z.of_nat i * dy <= 8.
Proof.
  induction n as [|n IH]; intros x y i; [cbn [walk length]; lia|].
  rewrite walk_S.
  destruct ((97 <=? x) && (x <=? 104) && (1 <=? y) && (y <=? 8)) eqn:Hon;
    [|cbn [length]; lia].
  rewrite !andb_true_iff, !Z.leb_le in Hon.
  destruct i as [|i]; cbn [length nth]; intros Hi.
  - unfold rayName. rewrite !Z.mul_0_l, !Z.add_0_r.
    repeat split; lia.
  - destruct (IH (x + dx) (y + dy) i) as (Hn & Hx & Hy); [lia|].
    rewrite Hn. unfold rayName. rewrite Nat2Z.inj_succ.
    replace (x + Z.succ (Z.of_nat i) * dx)
      with (x + dx + Z.of_nat i * dx) by lia.
    replace (y + Z.succ (Z.of_nat i) * dy)
      with (y + dy + Z.of_nat i * dy) by lia.
    repeat split; lia.
Qed.

Lemma walk_length_ge n dx dy : forall x y (k : nat),
  (k <= n)%nat ->
  (forall m, (m < k)%nat ->
             97 <= x + Z.of_nat m * dx <= 104
             /\ 1 <= y + Z.of_nat m * dy <= 8) ->
  (k <= length (walk n x y dx dy))%nat.
Proof.
  induction n as [|n IH]; intros x y k Hk Hon; [lia|].
  destruct k as [|k]; [lia|]. rewrite walk_S.
  pose proof (Hon 0%nat ltac:(lia)) as H0.
  replace ((97 <=? x) && (x <=? 104) && (1 <=? y) && (y <=? 8)) with true
    by (symmetry; rewrite !andb_true_iff, !Z.leb_le; lia).
  cbn [length]. apply le_n_S, IH; [lia|].
  intros m Hm. specialize (Hon (S m) ltac:(lia)).
  rewrite Nat2Z.inj_succ in Hon. lia.
Qed.

Lemma filter_two {A} (p : A -> bool) (l : list A) (d : A) : forall i j,
  (i < j < length l)%nat ->
  p (nth i l d) = true -> p (nth j l d) = true ->
  (2 <= length (filter p l))%nat.
Proof.
  induction l as [|x l IH]; intros i j Hij Hi Hj; cbn [length] in *; [lia|].
  cbn [filter]. destruct j as [|j]; [lia|]. cbn [nth] in Hj.
  destruct i as [|i]; cbn [nth] in Hi.
  - rewrite Hi. cbn [length]. apply le_n_S.
    assert (Hin : In (nth j l d) (filter p l)).
    { apply filter_In. split; [apply nth_In; lia|assumption]. }
    destruct (filter p l); [destruct Hin|cbn [length]; lia].
  - assert (2 <= length (filter p l))%nat by (apply (IH i j); [lia|assumption..]).
    destruct (p x); cbn [length]; lia.
Qed.

Lemma in_firstn {A} (n : nat) (l : list A) (x : A) :
  In x (firstn n l) -> In x l.
Proof.
  revert l. induction n as [|n IH]; intros [|y l]; cbn [firstn In]; try tauto.
  intros [->|H]; [now left|right; now apply IH].
Qed.

Lemma length_leaves_occupied chess l :
  (forall s, In s l -> occupied chess s = true) ->
  length (leaves chess l) = length l.
Proof.
  intros H. rewrite <- (length_map at_), map_at_leaves, filter_all;
    [reflexivity|assumption].
Qed.

Lemma rayName_shift x0 y0 dx dy i :
  rayName (x0 + dx) (y0 + dy) dx dy (Z.of_nat i)
  = rayName x0 y0 dx dy (Z.of_nat i + 1).
Proof. unfold rayName. f_equal; f_equal; lia. Qed.

(** X3: Along one of the eight directions, on a board that [fenStr]
    describes, [_getPiecesAlongRay] ends and returns at most two
    descriptors.  When it returns two, they describe the pieces at two
    distances [k1 < k2] from the start, nearest first, with no other piece
    nearer than [k2], all on the board; and it does return two whenever
    two squares of the ray, reached without leaving the board, are
    occupied. *)
Theorem ray_scan_nearest_two chess start dx dy fenStr x0 y0 :
  (forall s, get (new_Chess fenStr) s = get chess s) ->
  unitStep dx dy ->
  charCodeAt0 start = Some x0 ->
  digitValue (charAt start 1) = Some y0 ->
  let sq := rayName x0 y0 dx dy in
  let inside := fun k =>
    97 <= x0 + k * dx <= 104 /\ 1 <= y0 + k * dy <= 8 in
  exists l,
    _getPiecesAlongRay chess start dx dy fenStr = Some l
    /\ (length l <= 2)%nat
    /\ (forall a b,
           l = [a; b] ->
           exists k1 k2 p1 p2,
             1 <= k1 < k2
             /\ a = leaf (sq k1) p1 /\ b = leaf (sq k2) p2
             /\ get chess (sq k1) = Some p1 /\ get chess (sq k2) = Some p2
             /\ inside k2
             /\ forall k, 1 <= k < k2 -> k <> k1 -> get chess (sq k) = None)
    /\ (forall k1 k2 p1 p2,
           1 <= k1 < k2 ->
           (forall k, 1 <= k <= k2 -> inside k) ->
           get chess (sq k1) = Some p1 -> get chess (sq k2) = Some p2 ->
           length l = 2%nat).
Proof.
  intros Hrt Hunit Hx Hy sq inside.
  rewrite (_getPiecesAlongRay_spec chess start dx dy fenStr Hrt Hunit).
  unfold firstTwoOccupied, raySquares. rewrite Hx, Hy.
  set (ray := walk 8 (x0 + dx) (y0 + dy) dx dy).
  set (two := firstn 2 (filter (occupied chess) ray)).
  assert (Hocc : forall s, In s two -> occupied chess s = true).
  { intros s Hs. unfold two in Hs. apply in_firstn, filter_In in Hs. tauto. }
  assert (Hlen : length (leaves chess two) = length two)
    by (apply length_leaves_occupied, Hocc).
  assert (Hname : forall i, (i < length ray)%nat ->
                            nth i ray EmptyString = sq (Z.of_nat i + 1)
                            /\ inside (Z.of_nat i + 1)).
  { intros i Hi. destruct (nth_walk 8 dx dy _ _ i Hi) as (Hn & Hbx & Hby).
    unfold ray. rewrite Hn, rayName_shift. split; [reflexivity|].
    unfold inside. lia. }
  eexists. split; [reflexivity|]. split; [|split].
  - rewrite Hlen. apply firstn_le_length.
  - intros a b Hab.
    destruct two as [|s1 [|s2 [|s3 rest]]] eqn:Htwo;
      try (rewrite Hab in Hlen; cbn [length] in Hlen; lia).
    destruct (firstn2_filter _ _ _ _ EmptyString Htwo)
      as (i & j & Hij & Hi & Hj & Ha & Hb & Hlow).
    unfold leaves in Hab. cbn [flat_map] in Hab.
    unfold occupied in Ha, Hb.
    destruct (get chess s1) as [p1|] eqn:Hp1; [|discriminate].
    destruct (get chess s2) as [p2|] eqn:Hp2; [|discriminate].
    injection Hab as <- <-.
    destruct (Hname i ltac:(lia)) as (Hni & _).
    destruct (Hname j ltac:(lia)) as (Hnj & Hinj).
    rewrite Hi in Hni. rewrite Hj in Hnj.
    exists (Z.of_nat i + 1), (Z.of_nat j + 1), p1, p2.
    rewrite <- Hni, <- Hnj.
    repeat split; try assumption; try lia; try (unfold inside in Hinj; lia).
    intros k Hk Hne.
    specialize (Hlow (Z.to_nat (k - 1)) ltac:(lia) ltac:(lia)).
    destruct (Hname (Z.to_nat (k - 1)) ltac:(lia)) as (Hnk & _).
    rewrite Hnk in Hlow.
    replace (Z.of_nat (Z.to_nat (k - 1)) + 1) with k in Hlow by lia.
    unfold occupied in Hlow. now destruct (get chess (sq k)).
  - intros k1 k2 p1 p2 Hk Hin Hp1 Hp2. rewrite Hlen.
    assert (Hk2 : k2 <= 8).
    { pose proof (Hin 1 ltac:(lia)) as H1. pose proof (Hin k2 ltac:(lia)) as H2.
      unfold inside, unitStep in *. nia. }
    assert (Hray : (Z.to_nat k2 <= length ray)%nat).
    { apply walk_length_ge; [lia|]. intros m Hm.
      specialize (Hin (Z.of_nat m + 1) ltac:(lia)). unfold inside in Hin.
      lia. }
    assert (Hge : (2 <= length (filter (occupied chess) ray))%nat).
    { apply (filter_two _ _ EmptyString
               (Z.to_nat (k1 - 1)) (Z.to_nat (k2 - 1))); [lia| |].
      - destruct (Hname (Z.to_nat (k1 - 1)) ltac:(lia)) as (Hn & _).
        rewrite Hn. replace (Z.of_nat (Z.to_nat (k1 - 1)) + 1) with k1 by lia.
        unfold occupied. now rewrite Hp1.
      - destruct (Hname (Z.to_nat (k2 - 1)) ltac:(lia)) as (Hn & _).
        rewrite Hn. replace (Z.of_nat (Z.to_nat (k2 - 1)) + 1) with k2 by lia.
        unfold occupied. now rewrite Hp2. }
    unfold two. rewrite length_firstn. lia.
Qed.

End FurtherResolver.

(* ================================================================== *)
(** ** Further properties: the analysis *)
(* ================================================================== *)

Section FurtherAnalysis.

Context {engine : ChessJS}.

(** The tag read off a matched move, by the order of lines 136-143:
    the marks of the SAN first, then the flags. *)
Lemma moveTag_table m :
  let mated := occurs "#" (m_san m) in
  let checked := occurs "+" (m_san m) in
  let promoted := occurs "p" (m_flags m) in
  let took := occurs "c" (m_flags m) \/ m_captured m <> None in
  let passed := occurs "e" (m_flags m) in
  let castled := occurs "k" (m_flags m) \/ occurs "q" (m_flags m) in
  (moveTag m = checkmate <-> mated)
  /\ (moveTag m = check <-> ~ mated /\ checked)
  /\ (moveTag m = promotion <-> ~ mated /\ ~ checked /\ promoted)
  /\ (moveTag m = capture <-> ~ mated /\ ~ checked /\ ~ promoted /\ took)
  /\ (moveTag m = enPassant <->
      ~ mated /\ ~ checked /\ ~ promoted /\ ~ took /\ passed)
  /\ (moveTag m = castling <->
      ~ mated /\ ~ checked /\ ~ promoted /\ ~ took /\ ~ passed /\ castled)
  /\ (moveTag m = normal <->
      ~ mated /\ ~ checked /\ ~ promoted /\ ~ took /\ ~ passed /\ ~ castled)
  /\ moveTag m <> stalemate /\ moveTag m <> attacking
  /\ moveTag m <> fianchetto.
Proof.
  cbv zeta. unfold moveTag.
  pose proof (includes_char (m_san m) "#") as H1.
  pose proof (includes_char (m_san m) "+") as H2.
  pose proof (includes_char (m_flags m) "p") as H3.
  pose proof (includes_char (m_flags m) "c") as H4.
  pose proof (includes_char (m_flags m) "e") as H5.
  pose proof (includes_char (m_flags m) "k") as H6.
  pose proof (includes_char (m_flags m) "q") as H7.
  assert (H8 : isSome (m_captured m) = true <-> m_captured m <> None)
    by (destruct (m_captured m); cbn; split; congruence).
  assert (Ht : true = true) by reflexivity.
  assert (Hf : false = true -> False) by discriminate.
  destruct (includes (m_san m) "#");
    [repeat split; try discriminate; tauto|].
  destruct (includes (m_san m) "+");
    [repeat split; try discriminate; tauto|].
  destruct (includes (m_flags m) "p");
    [repeat split; try discriminate; tauto|].
  destruct (includes (m_flags m) "c");
    [cbn [orb]; repeat split; try discriminate; tauto|].
  destruct (isSome (m_captured m));
    [cbn [orb]; repeat split; try discriminate; tauto|].
  destruct (includes (m_flags m) "e");
    [cbn [orb]; repeat split; try discriminate; tauto|].
  destruct (includes (m_flags m) "k");
    [cbn [orb]; repeat split; try discriminate; tauto|].
  destruct (includes (m_flags m) "q");
    cbn [orb]; repeat split; try discriminate; tauto.
Qed.

(** X4: The defense tag of a result compares the numbers of attackers
    and defenders listed under its piece: [overdefended] when there are
    more defenders, [defended] when there are as many (none of either
    included), [underdefended] when there are fewer defenders but at least
    one, [undefended] when there are attackers and no defender. *)
Theorem defense_balance sq fenStr prevFen r :
  moveInfo sq fenStr prevFen = Some r ->
  let na := length (attackers (piece r)) in
  let nd := length (defenders (piece r)) in
  (defense r = overdefended <-> (na < nd)%nat)
  /\ (defense r = defended <-> nd = na)
  /\ (defense r = underdefended <-> (0 < nd < na)%nat)
  /\ (defense r = undefended <-> nd = 0%nat /\ (0 < na)%nat).
Proof.
  intros H na nd.
  destruct (moveInfo_spec _ _ _ _ H)
    as (pc & pe & _ & _ & Hpiece & _ & _ & Hdef & _).
  subst na nd. rewrite Hdef, Hpiece. unfold defenseOf.
  destruct (Nat.eqb_spec (length (defenders pe)) 0),
    (Nat.eqb_spec (length (attackers pe)) 0),
    (Nat.ltb_spec 0 (length (attackers pe))),
    (Nat.ltb_spec 0 (length (defenders pe))),
    (Nat.ltb_spec (length (attackers pe)) (length (defenders pe))),
    (Nat.ltb_spec (length (defenders pe)) (length (attackers pe)));
    cbn [andb]; repeat split; intros; try discriminate; try lia.
Qed.

(** X5: A queried piece with an attacker is tagged [attacking] or
    [fianchetto]; so a result tagged with anything else ([check],
    [checkmate], [capture], [promotion], [castling], [stalemate],
    [normal], ...) describes a piece that nothing attacks; and the tag
    [attacking] is given to no piece without an attacker. *)
Theorem tag_and_attackers sq fenStr prevFen r :
  moveInfo sq fenStr prevFen = Some r ->
  (attackers (piece r) <> [] -> type r = attacking \/ type r = fianchetto)
  /\ (type r <> attacking -> type r <> fianchetto ->
      attackers (piece r) = [])
  /\ (type r = attacking -> attackers (piece r) <> []).
Proof.
  intros H.
  destruct (moveInfo_spec _ _ _ _ H)
    as (pc & pe & _ & _ & Hpiece & _ & Htype & _).
  rewrite Htype, Hpiece. unfold tagOf.
  destruct (fianchettoApplies _ pc sq).
  { repeat split; try tauto; discriminate. }
  destruct (attackers pe) as [|a l]; cbn [length Nat.ltb Nat.leb].
  - repeat split; try tauto.
    destruct (stalemateNow _); [discriminate|].
    destruct (matchedMove fenStr prevFen) as [m|]; [|discriminate].
    intros Hm. now destruct (moveTag_table m) as (_ & _ & _ & _ & _ & _ & _ & _ & Ha & _).
  - repeat split; try tauto; discriminate.
Qed.

(** X6: The tag [enPassant] is never given when the rules engine, as
    chess.js does, names the pawn taken by every move flagged [e]: such a
    move is tagged [capture] (or by a later step), since line 137 tests
    the taken piece before line 139 tests the flag. *)
Theorem enPassant_tag_unreachable sq fenStr prevFen r :
  (forall m,
      matchedMove fenStr prevFen = Some m ->
      occurs "e" (m_flags m) -> m_captured m <> None) ->
  moveInfo sq fenStr prevFen = Some r ->
  type r <> enPassant.
Proof.
  intros Hlaw H.
  destruct (moveInfo_spec _ _ _ _ H)
    as (pc & pe & _ & _ & _ & _ & Htype & _).
  rewrite Htype. unfold tagOf.
  destruct (fianchettoApplies _ pc sq); [discriminate|].
  destruct (0 <? _)%nat; [discriminate|].
  destruct (stalemateNow _); [discriminate|].
  destruct (matchedMove fenStr prevFen) as [m|] eqn:Hm; [|discriminate].
  intros Hep.
  destruct (moveTag_table m) as (_ & _ & _ & _ & Hpass & _).
  apply Hpass in Hep as (_ & _ & _ & Htook & Hflag).
  apply Htook. right. now apply Hlaw.
Qed.

(** The test of lines 181-196, on the two squares it looks at. *)
Lemma fianchettoApplies_front chess pc sq :
  fianchettoApplies chess pc sq =
  PieceSymbol_eqb (ptype pc) Bishop
  && existsb (fun s => match get chess s with
                       | Some q => PieceSymbol_eqb (ptype q) Pawn
                                   && Color_eqb (pcolor q) (pcolor pc)
                       | None => false
                       end)
             (fianchettoFront (pcolor pc) sq).
Proof.
  unfold fianchettoApplies, fianchettoFront.
  destruct (PieceSymbol_eqb (ptype pc) Bishop); [|reflexivity].
  cbn [andb existsb].
  destruct (sq =? "b2")%string eqn:E1;
    [apply String.eqb_eq in E1; subst;
     destruct (pcolor pc); cbn [existsb]; rewrite !orb_false_r; reflexivity|].
  destruct (sq =? "g2")%string eqn:E2;
    [apply String.eqb_eq in E2; subst;
     destruct (pcolor pc); cbn [existsb]; rewrite !orb_false_r; reflexivity|].
  destruct (sq =? "b7")%string eqn:E3;
    [apply String.eqb_eq in E3; subst;
     destruct (pcolor pc); cbn [existsb]; rewrite !orb_false_r; reflexivity|].
  destruct (sq =? "g7")%string eqn:E4;
    [apply String.eqb_eq in E4; subst;
     destruct (pcolor pc); cbn [existsb]; rewrite !orb_false_r; reflexivity|].
  cbn [orb]. now destruct (pcolor pc).
Qed.

(** X7: A result is tagged [fianchetto] exactly when the queried piece is
    a bishop on b2, g2, b7 or g7 and a pawn of its side stands on one of
    the two squares in front of it on its file: towards rank 8 for a white
    bishop, towards rank 1 for a black one ([fianchettoFront]). *)
Theorem fianchetto_tag sq fenStr prevFen r pc :
  let chess := new_Chess fenStr in
  moveInfo sq fenStr prevFen = Some r ->
  get chess sq = Some pc ->
  (type r = fianchetto <->
   ptype pc = Bishop
   /\ exists s q,
       In s (fianchettoFront (pcolor pc) sq)
       /\ get chess s = Some q
       /\ ptype q = Pawn /\ pcolor q = pcolor pc).
Proof.
  intros chess H Hpc.
  destruct (moveInfo_spec _ _ _ _ H)
    as (pc' & pe & Hpc' & _ & _ & _ & Htype & _).
  fold chess in Hpc', Htype. rewrite Hpc in Hpc'. injection Hpc' as <-.
  assert (Hiff : fianchettoApplies chess pc sq = true <->
                 ptype pc = Bishop
                 /\ exists s q,
                     In s (fianchettoFront (pcolor pc) sq)
                     /\ get chess s = Some q
                     /\ ptype q = Pawn /\ pcolor q = pcolor pc).
  { rewrite fianchettoApplies_front, andb_true_iff, PieceSymbol_eqb_eq,
      existsb_exists.
    split; intros (Hb & s & Hs); (split; [assumption|]).
    - destruct Hs as (Hs & Hq).
      destruct (get chess s) as [q|] eqn:Hg; [|discriminate].
      apply andb_true_iff in Hq as (Hq1 & Hq2).
      apply PieceSymbol_eqb_eq in Hq1. apply Color_eqb_eq in Hq2.
      now exists s, q.
    - destruct Hs as (q & Hs & Hq & Hk & Hc). exists s. split; [assumption|].
      rewrite Hq. apply andb_true_iff. split;
        [now apply PieceSymbol_eqb_eq|now apply Color_eqb_eq]. }
  rewrite <- Hiff, Htype. unfold tagOf.
  destruct (fianchettoApplies chess pc sq); [tauto|].
  split; [|discriminate].
  destruct (0 <? _)%nat; [discriminate|].
  destruct (stalemateNow chess); [discriminate|].
  destruct (matchedMove fenStr prevFen) as [m|]; [|discriminate].
  intros Hm. now destruct (moveTag_table m)
    as (_ & _ & _ & _ & _ & _ & _ & _ & _ & Hf).
Qed.

(** X8: With no previous snapshot, with the empty string for one, or
    when no legal move of the previous snapshot leads to the current one,
    the result has no [capturedPiece] and its tag is one of [normal],
    [stalemate], [attacking], [fianchetto]: it is the result of the query
    without a previous snapshot. *)
Theorem analysis_without_previous sq fenStr prevFen r :
  prevFen = None \/ prevFen = Some EmptyString
  \/ (exists prev, prevFen = Some prev /\ findMove fenStr prev = None) ->
  moveInfo sq fenStr prevFen = Some r ->
  capturedPiece r = None
  /\ (type r = normal \/ type r = stalemate
      \/ type r = attacking \/ type r = fianchetto)
  /\ moveInfo sq fenStr None = Some r.
Proof.
  intros Hprev H.
  assert (Hm : matchedMove fenStr prevFen = None).
  { destruct Hprev as [->|[->|(prev & -> & Hf)]]; try reflexivity.
    unfold matchedMove. now destruct (truthy prev). }
  assert (Heq : moveInfo sq fenStr prevFen = moveInfo sq fenStr None).
  { unfold moveInfo. fold (matchedMove fenStr prevFen). rewrite Hm.
    reflexivity. }
  destruct (moveInfo_spec _ _ _ _ H)
    as (pc & pe & _ & _ & _ & Hcap & Htype & _).
  rewrite Hm in Hcap, Htype. repeat split.
  - assumption.
  - rewrite Htype. unfold tagOf.
    destruct (fianchettoApplies _ pc sq); [tauto|].
    destruct (0 <? _)%nat; [tauto|].
    destruct (stalemateNow _); tauto.
  - now rewrite <- Heq.
Qed.

(** X9: A result has a [capturedPiece] exactly when a legal move of the
    previous snapshot leads to the current one and its destination square
    was occupied in the previous snapshot; it is then the bare descriptor
    of what stood there, with the square, kind and color it had. *)
Theorem capturedPiece_iff sq fenStr prevFen r c :
  moveInfo sq fenStr prevFen = Some r ->
  (capturedPiece r = Some c <->
   exists prev m cap,
     prevFen = Some prev
     /\ matchedMove fenStr prevFen = Some m
     /\ get (new_Chess prev) (m_to m) = Some cap
     /\ c = leaf (m_to m) cap).
Proof.
  intros H.
  destruct (moveInfo_spec _ _ _ _ H) as (pc & pe & _ & _ & _ & Hcap & _).
  rewrite Hcap. split.
  - destruct (matchedMove fenStr prevFen) as [m|]; [|discriminate].
    destruct prevFen as [prev|]; [|discriminate].
    unfold capturedOf. rewrite buildPieceInEffect_leaf.
    destruct (get (new_Chess prev) (m_to m)) as [cap|] eqn:Hget;
      [|discriminate].
    cbn [option_map]. intros [= <-]. now exists prev, m, cap.
  - intros (prev & m & cap & -> & -> & Hget & ->).
    unfold capturedOf. rewrite buildPieceInEffect_leaf, Hget. reflexivity.
Qed.

(** X10: A result is tagged [promotion] exactly when the matched move is
    flagged as a promotion, its SAN marks neither check nor mate, the
    current snapshot is no stalemate, nothing attacks the queried piece
    and the fianchetto refinement does not apply. *)
Theorem promotion_tag_iff sq fenStr prevFen r pc :
  let chess := new_Chess fenStr in
  moveInfo sq fenStr prevFen = Some r ->
  get chess sq = Some pc ->
  (type r = promotion <->
   fianchettoApplies chess pc sq = false
   /\ attackers (piece r) = []
   /\ stalemateNow chess = false
   /\ exists m,
       matchedMove fenStr prevFen = Some m
       /\ occurs "p" (m_flags m)
       /\ ~ occurs "+" (m_san m) /\ ~ occurs "#" (m_san m)).
Proof.
  intros chess H Hpc.
  destruct (moveInfo_spec _ _ _ _ H)
    as (pc' & pe & Hpc' & _ & Hpiece & _ & Htype & _).
  fold chess in Hpc', Htype. rewrite Hpc in Hpc'. injection Hpc' as <-.
  rewrite Htype, Hpiece. unfold tagOf.
  destruct (fianchettoApplies chess pc sq);
    [split; [discriminate|intros (? & _); discriminate]|].
  destruct (attackers pe) as [|a l]; cbn [length Nat.ltb Nat.leb];
    [|split; [discriminate|intros (_ & ? & _); discriminate]].
  destruct (stalemateNow chess);
    [split; [discriminate|intros (_ & _ & ? & _); discriminate]|].
  destruct (matchedMove fenStr prevFen) as [m|];
    [|split; [discriminate|intros (_ & _ & _ & ? & [=] & _)]].
  destruct (moveTag_table m) as (_ & _ & Hp & _). rewrite Hp.
  split.
  - intros (Hm & Hc & Hf). repeat split. exists m. tauto.
  - intros (_ & _ & _ & m' & [= <-] & Hf & Hc & Hm). tauto.
Qed.

(** X12: The previous snapshot bears on the tag and the captured piece
    only: two results for the same square and current snapshot agree on
    [piece], [defense], [attacks], [defends], [tactics] and
    [hangingPieces], and on the tag as soon as one of them is [attacking],
    [fianchetto] or [stalemate]. *)
Theorem previous_snapshot_scope sq fenStr prev1 prev2 r1 r2 :
  moveInfo sq fenStr prev1 = Some r1 ->
  moveInfo sq fenStr prev2 = Some r2 ->
  piece r1 = piece r2 /\ defense r1 = defense r2
  /\ attacks r1 = attacks r2 /\ defends r1 = defends r2
  /\ tactics r1 = tactics r2 /\ hangingPieces r1 = hangingPieces r2
  /\ (type r1 = attacking \/ type r1 = fianchetto \/ type r1 = stalemate ->
      type r2 = type r1).
Proof.
  intros H1 H2.
  destruct (moveInfo_spec _ _ _ _ H1)
    as (pc & pe & Hpc & Hpe & Hp1 & _ & Ht1 & Hd1 & Ha1 & Htc1 & Hdf1 & Hh1).
  destruct (moveInfo_spec _ _ _ _ H2)
    as (pc' & pe' & Hpc' & Hpe' & Hp2 & _ & Ht2 & Hd2 & Ha2 & Htc2 & Hdf2 & Hh2).
  rewrite Hpc in Hpc'. injection Hpc' as <-.
  rewrite Hpe in Hpe'. injection Hpe' as <-.
  assert (Hd : defense r1 = defense r2) by congruence.
  assert (Ha : attacks r1 = attacks r2) by congruence.
  repeat split; try congruence.
  rewrite Ht1, Ht2. unfold tagOf.
  destruct (fianchettoApplies _ pc sq); [reflexivity|].
  destruct (0 <? _)%nat; [reflexivity|].
  destruct (stalemateNow _); [reflexivity|].
  destruct (matchedMove fenStr prev1) as [m|].
  - destruct (moveTag_table m) as (_ & _ & _ & _ & _ & _ & _ & Hs & Ha' & Hf).
    intros [Hx|[Hx|Hx]]; congruence.
  - intros [Hx|[Hx|Hx]]; discriminate.
Qed.

(** X13: Every piece listed in [defends] is of the queried piece's own
    side, stands on another square that the queried square attacks, and is
    not listed in [hangingPieces]. *)
Theorem defends_own_side sq fenStr prevFen r pc :
  let chess := new_Chess fenStr in
  moveInfo sq fenStr prevFen = Some r ->
  get chess sq = Some pc ->
  forall e,
    In e (defends r) ->
    color e = pcolor pc
    /\ at_ e <> sq
    /\ In sq (reachable chess (at_ e))
    /\ forall c, ~ In e (hangingOf (hangingPieces r) c).
Proof.
  intros chess H Hpc e He.
  destruct (moveInfo_spec _ _ _ _ H)
    as (pc' & pe & _ & _ & _ & _ & _ & _ & _ & _ & Hdfd & _).
  fold chess in Hdfd. rewrite Hdfd in He.
  apply in_flat_map in He as (s & _ & He).
  apply in_defendsAt in He as (p & Hne & Hp & Hb & (d & Hd & Hat) & _).
  pose proof Hb as Hb'. rewrite buildPieceInEffect_one in Hb'.
  fold chess in Hb'. rewrite Hp in Hb'. injection Hb' as <-.
  cbn [color at_ defenders] in *.
  unfold defenderPart in Hd. apply in_leaves in Hd as (s' & p' & Hs' & Hp' & ->).
  cbn [leaf at_] in Hat. subst s'.
  apply filter_In in Hs' as (Hreach & Hsame).
  unfold sameSide in Hsame. rewrite Hpc in Hsame. apply Color_eqb_eq in Hsame.
  repeat split; try assumption; [congruence|].
  intros c Hin. apply (in_hangingOf _ _ _ _ H) in Hin
    as (s2 & p2 & _ & _ & _ & _ & Hb2 & _ & Hz).
  cbn [defenders] in Hz.
  assert (Hin : In (leaf sq pc)
                   (defenderPart chess (pcolor p) (reachable chess s))).
  { unfold defenderPart. apply in_leaves. exists sq, pc.
    repeat split; [|assumption]. apply filter_In. split; [assumption|].
    unfold sameSide. rewrite Hpc. now apply Color_eqb_eq. }
  destruct (defenderPart chess (pcolor p) (reachable chess s));
    [destruct Hin|discriminate].
Qed.

(** What one direction adds, read off the scan itself: a pin or a skewer
    of two pieces of the other side. *)
Lemma findingOn_targets chess sq pc dfs d t :
  In t (findingOn chess sq pc dfs d) ->
  (tactic t = pin \/ tactic t = skewer)
  /\ exists a b,
      targets t = [a; b]
      /\ color a <> pcolor pc /\ color b <> pcolor pc.
Proof.
  unfold findingOn, pinStep. destruct d as [dx dy].
  destruct (_getPiecesAlongRay chess sq dx dy (fen chess)) as [ray|];
    [|intros []].
  destruct ray as [|p1 [|p2 ray]]; try (intros []).
  destruct (negb (Color_eqb (color p1) (pcolor pc))
            && negb (Color_eqb (color p2) (pcolor pc))) eqn:Hen; [|intros []].
  apply andb_true_iff in Hen as (H1 & H2).
  apply negb_true_iff, Color_eqb_neq in H1, H2.
  intros [<-|[]]. cbn [tactic targets app]. split.
  - destruct (_ && _); tauto.
  - now exists p1, p2.
Qed.

Lemma length_flat_map_le {A B} (f : A -> list B) (l : list A) :
  (forall x, length (f x) <= 1)%nat ->
  (length (flat_map f l) <= length l)%nat.
Proof.
  intros H. induction l as [|x l IH]; cbn [flat_map length]; [lia|].
  rewrite length_app. specialize (H x). lia.
Qed.

(** X14: The findings of a result are the fork, present exactly when the
    attack list has two entries or more and then listing it, followed by
    what each direction of the piece's kind adds in turn, which is nothing
    or one [pin] or [skewer] and never a fork: so there is at most one
    fork, at most one pin or skewer per direction, and a knight, pawn or
    king gets the fork at most.  A pin or skewer has exactly two targets,
    both of the side opposite the queried piece, which is then a bishop,
    rook or queen.  No other tactic is ever reported. *)
Theorem tactics_shape sq fenStr prevFen r pc :
  moveInfo sq fenStr prevFen = Some r ->
  get (new_Chess fenStr) sq = Some pc ->
  (forall t,
      In t (tactics r) ->
      (tactic t = fork /\ targets t = attacks r
       /\ (2 <= length (attacks r))%nat)
      \/ ((tactic t = pin \/ tactic t = skewer)
          /\ In (ptype pc) [Bishop; Rook; Queen]
          /\ exists a b,
              targets t = [a; b]
              /\ color a <> pcolor pc /\ color b <> pcolor pc))
  /\ (length (tactics r) <= 1 + length (DIRECTIONS (ptype pc)))%nat
  /\ (length (DIRECTIONS (ptype pc)) <= 8)%nat
  /\ (~ In (ptype pc) [Bishop; Rook; Queen] ->
      DIRECTIONS (ptype pc) = [])
  /\ tactics r
     = (if (2 <=? length (attacks r))%nat
        then [ {| tactic := fork; targets := attacks r |} ] else [])
       ++ flat_map (findingOn (new_Chess fenStr) sq pc (defense r))
                   (DIRECTIONS (ptype pc))
  /\ (forall d,
         (length (findingOn (new_Chess fenStr) sq pc (defense r) d) <= 1)%nat
         /\ forall t,
             In t (findingOn (new_Chess fenStr) sq pc (defense r) d) ->
             tactic t = pin \/ tactic t = skewer)
  /\ (length (filter isFork (tactics r)) <= 1)%nat.
Proof.
  intros H Hpc.
  destruct (moveInfo_spec _ _ _ _ H)
    as (pc' & pe & Hpc' & _ & _ & _ & _ & _ & _ & Htac & _).
  rewrite Hpc in Hpc'. injection Hpc' as <-.
  assert (Hone : forall d,
             (length (findingOn (new_Chess fenStr) sq pc (defense r) d)
              <= 1)%nat
             /\ forall t,
                 In t (findingOn (new_Chess fenStr) sq pc (defense r) d) ->
                 tactic t = pin \/ tactic t = skewer).
  { intros d.
    destruct (findingOn_cases (new_Chess fenStr) sq pc (defense r) d)
      as [->|(t & -> & Hk)]; cbn [length]; (split; [lia|]).
    - intros t [].
    - intros t' [<-|[]]. exact Hk. }
  assert (Hdirs : (if existsb (PieceSymbol_eqb (ptype pc))
                               [Bishop; Rook; Queen]
                   then flat_map
                          (findingOn (new_Chess fenStr) sq pc (defense r))
                          (DIRECTIONS (ptype pc))
                   else [])
                  = flat_map (findingOn (new_Chess fenStr) sq pc (defense r))
                             (DIRECTIONS (ptype pc)))
    by (destruct (ptype pc); reflexivity).
  assert (Hshape : tactics r
     = (if (2 <=? length (attacks r))%nat
        then [ {| tactic := fork; targets := attacks r |} ] else [])
       ++ flat_map (findingOn (new_Chess fenStr) sq pc (defense r))
                   (DIRECTIONS (ptype pc))).
  { rewrite Htac at 1. rewrite tacticsOf_spec, Hdirs. reflexivity. }
  assert (Hpins : filter isFork
                    (flat_map (findingOn (new_Chess fenStr) sq pc (defense r))
                              (DIRECTIONS (ptype pc))) = []).
  { apply filter_flat_map_nil. intros d t Ht.
    destruct (proj2 (Hone d) t Ht) as [Hk|Hk]; unfold isFork; now rewrite Hk. }
  split; [|split; [|split; [|split; [|split; [exact Hshape|split;
                                                [exact Hone|]]]]]].
  - intros t Ht. rewrite Hshape in Ht. apply in_app_iff in Ht as [Ht|Ht].
    + destruct (Nat.leb_spec 2 (length (attacks r))); [|destruct Ht].
      destruct Ht as [<-|[]]. left. cbn [tactic targets]. repeat split. lia.
    + right. apply in_flat_map in Ht as (d & Hd & Ht).
      destruct (findingOn_targets _ _ _ _ _ _ Ht) as (Hkind & Htargets).
      repeat split; try assumption.
      cbn [In]. destruct (ptype pc); cbn [DIRECTIONS] in Hd;
        try destruct Hd; tauto.
  - rewrite Hshape, length_app.
    assert (Hfork : (length (if (2 <=? length (attacks r))%nat
                             then [ {| tactic := fork;
                                       targets := attacks r |} ]
                             else []) <= 1)%nat)
      by (destruct (2 <=? _)%nat; cbn [length]; lia).
    pose proof (length_flat_map_le
                  (findingOn (new_Chess fenStr) sq pc (defense r))
                  (DIRECTIONS (ptype pc)) (fun d => proj1 (Hone d))).
    lia.
  - destruct (ptype pc); cbn; lia.
  - intros Hk. destruct (ptype pc); try reflexivity; elim Hk; cbn; tauto.
  - rewrite Hshape, filter_app, Hpins, app_nil_r.
    destruct (2 <=? _)%nat; cbn [filter isFork tactic length]; lia.
Qed.

(** X15: The hanging census does not depend on the query beyond the
    square it leaves out: an entry of [hangingPieces[c]] in the result for
    one square is an entry of it in the result for any other square of the
    same snapshot, unless it stands on that other square. *)
Theorem hanging_across_queries sq1 sq2 fenStr prev1 prev2 r1 r2 :
  moveInfo sq1 fenStr prev1 = Some r1 ->
  moveInfo sq2 fenStr prev2 = Some r2 ->
  forall c e,
    In e (hangingOf (hangingPieces r1) c) ->
    at_ e <> sq2 ->
    In e (hangingOf (hangingPieces r2) c).
Proof.
  intros H1 H2 c e He Hne.
  apply (in_hangingOf _ _ _ _ H1) in He
    as (s & p & Hs & _ & Hp & Hc & Hb & Ha & Hd).
  apply (in_hangingOf _ _ _ _ H2). exists s, p.
  repeat split; try assumption.
  destruct (buildPieceInEffect_some s fenStr 1 p Hp) as (d & Hb' & Hat & _).
  rewrite Hb in Hb'. injection Hb' as <-. congruence.
Qed.

End FurtherAnalysis.

(* ================================================================== *)
(** ** Further properties: the side to move of [alterFen] *)
(* ================================================================== *)

Lemma replaceTurn_cons c1 s c :
  isSpace c1 = false ->
  replaceTurn (String c1 s) c = String c1 (replaceTurn s c).
Proof.
  intros H. cbn [replaceTurn]. destruct s as [|c2 [|c3 s]]; try reflexivity.
  now rewrite H.
Qed.

(** X16: On a string that starts with a field free of white space,
    followed by a space, [w] or [b], and a space (as a FEN does), the
    replacement of line 226 puts the letter of the given side in the place
    of the second field and changes nothing else. *)
Theorem replaceTurn_sets_side placement t rest c :
  noSpace placement ->
  t = "w"%char \/ t = "b"%char ->
  replaceTurn (placement ++ String " " (String t (String " " rest)))%string c
  = (placement ++ " " ++ colorLetter c ++ " " ++ rest)%string.
Proof.
  intros Hp Ht. induction placement as [|a p IH].
  - cbn [append replaceTurn]. destruct Ht as [-> | ->]; reflexivity.
  - cbn [append]. rewrite replaceTurn_cons.
    + f_equal. apply IH. intros x Hx. apply Hp. now right.
    + apply Hp. now left.
Qed.

(* ================================================================== *)
(** ** Further properties: the methods of the class *)
(* ================================================================== *)

Section FurtherMethods.

Context {engine : ChessJS}.

(** X17: After a move that the rules engine accepts, each count of the
    ledger is the count before, less one when the result has a
    [capturedPiece] of that kind and the count is that of the side now to
    move, plus one when the result is tagged [promotion], the move
    promotes to that kind and the count is that of the other side.  So no
    count moves by more than one, and a move whose result has no
    [capturedPiece] and is not tagged [promotion] leaves the ledger as it
    was. *)
Theorem ledger_step arg this mv chess' :
  move (super this) arg = Some (mv, chess') ->
  let analysis := fst (moveAndAnalyze arg this) in
  let after := material (snd (moveAndAnalyze arg this)) in
  let taken c k :=
    match analysis with
    | Some a =>
        match capturedPiece a with
        | Some cp => Color_eqb (turn chess') c && PieceSymbol_eqb (name cp) k
        | None => false
        end
    | None => false
    end in
  let promoted c k :=
    match analysis, m_promotion mv with
    | Some a, Some pr =>
        MoveType_eqb (type a) promotion
        && Color_eqb (swapColor (turn chess')) c && PieceSymbol_eqb pr k
    | _, _ => false
    end in
  analysis = moveInfo (m_to mv) (m_after mv) (Some (m_before mv))
  /\ (forall c k,
         count (side after c) k
         = option_map
             (fun z => z - (if taken c k then 1 else 0)
                       + (if promoted c k then 1 else 0))
             (count (side (material this) c) k))
  /\ ((forall c k, taken c k = false) ->
      (forall c k, promoted c k = false) ->
      after = material this).
Proof.
  intros Hmove. cbv zeta.
  rewrite (moveAndAnalyze_ledger arg this mv chess' Hmove).
  cbn [fst snd material].
  destruct (moveInfo (m_to mv) (m_after mv) (Some (m_before mv))) as [a|];
    [|repeat split; intros c k; destruct (count _ k); cbn; f_equal; lia].
  split; [reflexivity|]. split.
  - intros c k.
    destruct (capturedPiece a) as [cp|], (m_promotion mv) as [pr|];
      try destruct (MoveType_eqb (type a) promotion);
      rewrite ?bumpSide_count;
      destruct (count (side (material this) c) k) as [z|];
      cbn [option_map andb]; try reflexivity; f_equal;
      repeat match goal with
             | |- context [if ?b then _ else _] => destruct b
             end; cbn [andb]; lia.
  - intros Htaken Hprom.
    destruct (capturedPiece a) as [cp|].
    + specialize (Htaken (turn chess') (name cp)).
      destruct (turn chess'), (name cp); discriminate.
    + destruct (m_promotion mv) as [pr|]; [|reflexivity].
      destruct (MoveType_eqb (type a) promotion); [|reflexivity].
      specialize (Hprom (swapColor (turn chess')) pr).
      destruct (turn chess'), pr; discriminate.
Qed.

(** X18: The class with the ledger and the class of [index.ts] without it
    give the same analysis and leave the rules engine in the same state,
    for [moveAndAnalyze] and for [getAnalysisAt]. *)
Theorem ledger_class_refines_index arg square this :
  fst (moveAndAnalyze arg this) = fst (Index.moveAndAnalyze arg (super this))
  /\ super (snd (moveAndAnalyze arg this))
     = snd (Index.moveAndAnalyze arg (super this))
  /\ fst (getAnalysisAt square this)
     = fst (Index.getAnalysisAt square (super this))
  /\ super (snd (getAnalysisAt square this))
     = snd (Index.getAnalysisAt square (super this)).
Proof.
  unfold Index.moveAndAnalyze.
  destruct (move (super this) arg) as [[mv chess']|] eqn:Hmove.
  - rewrite (moveAndAnalyze_ledger arg this mv chess' Hmove).
    repeat split.
  - rewrite (moveAndAnalyze_refused arg this Hmove). repeat split.
Qed.

Lemma jsNth_last_but_one {A} (pre : list A) (m last : A) :
  jsNth (pre ++ [m; last]) (Z.of_nat (length (pre ++ [m; last])) - 2)
  = Some m.
Proof.
  unfold jsNth. rewrite length_app. cbn [length].
  replace (Z.of_nat (length pre + 2) - 2 <? 0) with false
    by (symmetry; apply Z.ltb_ge; lia).
  replace (Z.to_nat (Z.of_nat (length pre + 2) - 2)) with (length pre) by lia.
  rewrite nth_error_app2 by lia. now rewrite Nat.sub_diag.
Qed.

Lemma getAnalysisAt_last_but_one square this pre m last :
  history (super this) = pre ++ [m; last] ->
  fst (getAnalysisAt square this)
  = moveInfo square (fen (super this))
      (if truthy (m_after m) then Some (m_after m) else None).
Proof.
  intros Hh.
  unfold getAnalysisAt, bind, this_history, this_fen, ret. cbn [fst snd].
  rewrite Hh, jsNth_last_but_one. reflexivity.
Qed.

(** X19: [getAnalysisAt] takes for previous snapshot the position after
    the last move but one of the history, when the history has two moves
    or more and that position is not the empty string; with fewer than
    two moves it queries without a previous snapshot. *)
Theorem getAnalysisAt_previous square this :
  ((length (history (super this)) < 2)%nat ->
   fst (getAnalysisAt square this)
   = moveInfo square (fen (super this)) None)
  /\ (forall pre m last,
         history (super this) = pre ++ [m; last] ->
         fst (getAnalysisAt square this)
         = moveInfo square (fen (super this))
             (if truthy (m_after m) then Some (m_after m) else None))
  /\ snd (getAnalysisAt square this) = this.
Proof.
  repeat split.
  - intros Hlen.
    unfold getAnalysisAt, bind, this_history, this_fen, ret, jsNth.
    cbn [fst snd].
    replace (Z.of_nat (length (history (super this))) - 2 <? 0) with true
      by (symmetry; apply Z.ltb_lt; lia).
    reflexivity.
  - apply getAnalysisAt_last_but_one.
Qed.

(** X20: When the rules engine records the move it plays (the history
    grows by it, the FEN is the move's [after], the move's [before] is the
    [after] of the move before it), [getAnalysisAt] on the destination of
    a move just played through [moveAndAnalyze] returns the analysis that
    [moveAndAnalyze] returned, provided a move had been played before. *)
Theorem getAnalysisAt_after_moveAndAnalyze arg this mv chess' pre before :
  move (super this) arg = Some (mv, chess') ->
  history (super this) = pre ++ [before] ->
  history chess' = history (super this) ++ [mv] ->
  fen chess' = m_after mv ->
  m_before mv = m_after before ->
  m_after before <> EmptyString ->
  fst (getAnalysisAt (m_to mv) (snd (moveAndAnalyze arg this)))
  = fst (moveAndAnalyze arg this).
Proof.
  intros Hmove Hhist Hhist' Hfen Hbefore Hne.
  assert (Hs : super (snd (moveAndAnalyze arg this)) = chess')
    by (rewrite (moveAndAnalyze_ledger arg this mv chess' Hmove);
        reflexivity).
  assert (Ha : fst (moveAndAnalyze arg this)
               = moveInfo (m_to mv) (m_after mv) (Some (m_before mv)))
    by (rewrite (moveAndAnalyze_ledger arg this mv chess' Hmove);
        reflexivity).
  rewrite (getAnalysisAt_last_but_one _ _ pre before mv)
    by (rewrite Hs, Hhist', Hhist, <- app_assoc; reflexivity).
  rewrite Hs, Ha, Hfen, <- Hbefore. unfold truthy.
  destruct (String.eqb_spec (m_before mv) EmptyString) as [Hempty|_];
    [congruence|reflexivity].
Qed.

End FurtherMethods.

(* ================================================================== *)
(** ** The source run on positions *)
(* ================================================================== *)

#[local] Existing Instance Rules.engine.

(** Start from a computed analysis: name its result and keep the equation
    that gives it. *)
Ltac analysed eqn result H :=
  pose proof eqn as H; unfold result in H;
  eexists; split; [exact H|].

(** The board scan visits a1, b1, ..., h1, a2, ..., h8. *)
Example boardSquares_listed :
  boardSquares =
  [ "a1"; "b1"; "c1"; "d1"; "e1"; "f1"; "g1"; "h1";
    "a2"; "b2"; "c2"; "d2"; "e2"; "f2"; "g2"; "h2";
    "a3"; "b3"; "c3"; "d3"; "e3"; "f3"; "g3"; "h3";
    "a4"; "b4"; "c4"; "d4"; "e4"; "f4"; "g4"; "h4";
    "a5"; "b5"; "c5"; "d5"; "e5"; "f5"; "g5"; "h5";
    "a6"; "b6"; "c6"; "d6"; "e6"; "f6"; "g6"; "h6";
    "a7"; "b7"; "c7"; "d7"; "e7"; "f7"; "g7"; "h7";
    "a8"; "b8"; "c8"; "d8"; "e8"; "f8"; "g8"; "h8" ].
Proof. vm_compute. reflexivity. Qed.

Example DIRECTIONS_listed :
  DIRECTIONS Bishop = [(1, 1); (1, -1); (-1, 1); (-1, -1)]
  /\ DIRECTIONS Rook = [(0, 1); (0, -1); (1, 0); (-1, 0)]
  /\ DIRECTIONS Queen = ALL_8_DIRECTIONS.
Proof. repeat split. Qed.

(** The ray from g4 towards d1, and what stands on it after 3... Bg4. *)
Example ray_g4_d1 :
  raySquares "g4" (-1) (-1) = ["f3"; "e2"; "d1"]
  /\ firstTwoOccupied (new_Chess pinFen) "g4" (-1) (-1) = ["f3"; "d1"].
Proof. vm_compute. repeat split. Qed.

(** The rules engine plays 3... Bg4 from the position before it, and
    writes back the FEN it read. *)
Example engine_plays_Bg4 :
  option_map (fun mc => fen (snd mc))
             (move (new_Chess beforePinFen) (San "Bg4"))
  = Some pinFen
  /\ fen (new_Chess pinFen) = pinFen.
Proof. vm_compute. repeat split. Qed.

Lemma pinAnalysis_eq :
  moveInfo "g4" pinFen (Some beforePinFen) = pinAnalysis.
Proof. vm_compute. reflexivity. Qed.

Lemma stalemateAnalysis_eq :
  moveInfo "a7" stalemateFen None = stalemateAnalysis.
Proof. vm_compute. reflexivity. Qed.

Lemma skewerAnalysis_eq : moveInfo "a1" skewerFen None = skewerAnalysis.
Proof. vm_compute. reflexivity. Qed.

Lemma forkAnalysis_eq : moveInfo "c3" forkFen None = forkAnalysis.
Proof. vm_compute. reflexivity. Qed.

Lemma checkedKingAnalysis_eq :
  moveInfo "e1" checkFen None = checkedKingAnalysis.
Proof. vm_compute. reflexivity. Qed.

Lemma checkingRookAnalysis_eq :
  moveInfo "e8" checkFen None = checkingRookAnalysis.
Proof. vm_compute. reflexivity. Qed.

Lemma enPassantAnalysis_eq :
  moveInfo "d6" enPassantFen (Some beforeEnPassantFen) = enPassantAnalysis.
Proof. vm_compute. reflexivity. Qed.

(** The game 1. e4 d5 2. Nf3 Nf6 3. a3 Bg4 reaches that position with the
    ledger untouched, and [getAnalysisAt] gives the same analysis. *)
Example getAnalysisAt_after_Bg4 :
  let this :=
    playAll ["e4"; "d5"; "Nf3"; "Nf6"; "a3"; "Bg4"]
            (new_BetterChess startFen) in
  fen (super this) = pinFen
  /\ material this = initialMaterial
  /\ fst (getAnalysisAt "g4" this) = pinAnalysis.
Proof. vm_compute. repeat split. Qed.

(** The first move 1. e4, passed as in the README. *)
Example first_move_e4 :
  option_map (fun r => (type r, defense r, tactics r, hangingPieces r))
    (fst (moveAndAnalyze (FromTo "e2" "e4" (Some Queen))
                         (new_BetterChess startFen)))
  = Some (normal, defended, [], {| hp_w := []; hp_b := [] |}).
Proof. vm_compute. reflexivity. Qed.

(** After 1. e4 d5 2. exd5 black has seven pawns in the ledger. *)
Example capture_counted :
  material (playAll ["e4"; "d5"; "exd5"] (new_BetterChess startFen))
  = bumpSide initialMaterial Black Pawn (-1).
Proof. vm_compute. reflexivity. Qed.

(** *** C1 *)

(** C1, refuted as stated: the snapshot is a stalemate, the fianchetto
    refinement does not apply to the pawn on a7, and the tag of its
    analysis is [attacking], not [stalemate]. *)
Lemma stalemate_tag_counterexample :
  stalemateNow (new_Chess stalemateFen) = true
  /\ map m_san (moves (new_Chess stalemateFen)) = []
  /\ inCheck (new_Chess stalemateFen) = false
  /\ fianchettoApplies (new_Chess stalemateFen) (mkPiece Pawn White) "a7"
     = false
  /\ option_map piece (moveInfo "a7" stalemateFen None)
     = Some {| at_ := "a7"; name := Pawn; color := White;
               attackers := [leaf "a8" (mkPiece King Black)];
               defenders := [leaf "a6" (mkPiece King White)] |}
  /\ option_map type (moveInfo "a7" stalemateFen None) = Some attacking.
Proof. vm_compute. repeat split. Qed.

Lemma stalemate_tag_witness :
  exists r,
    moveInfo "a7" stalemateFen None = Some r
    /\ exists pc,
        get (new_Chess stalemateFen) "a7" = Some pc
        /\ (fianchettoApplies (new_Chess stalemateFen) pc "a7" = true ->
            type r = fianchetto)
        /\ (fianchettoApplies (new_Chess stalemateFen) pc "a7" = false ->
            attackers (piece r) = [] -> type r = stalemate)
        /\ (fianchettoApplies (new_Chess stalemateFen) pc "a7" = false ->
            attackers (piece r) <> [] -> type r = attacking).
Proof.
  analysed stalemateAnalysis_eq stalemateAnalysis H.
  apply (stalemate_tag "a7" stalemateFen None _); [|exact H].
  vm_compute. reflexivity.
Defined.

(** *** C2 *)

Lemma hanging_census_witness :
  exists r,
    moveInfo "g4" pinFen (Some beforePinFen) = Some r
    /\ map at_ (hangingOf (hangingPieces r) White) = ["e4"]
    /\ (forall c e,
           In e (hangingOf (hangingPieces r) c) <->
           exists s p,
             In s boardSquares /\ s <> "g4"
             /\ get (new_Chess pinFen) s = Some p /\ pcolor p = c
             /\ buildPieceInEffect s pinFen 1 = Some e
             /\ (1 <= length (attackers e))%nat
             /\ length (defenders e) = 0%nat).
Proof.
  analysed pinAnalysis_eq pinAnalysis H. split; [reflexivity|].
  exact (proj1 (hanging_census "g4" pinFen (Some beforePinFen) _ H)).
Defined.

(** *** C3 *)

Lemma pin_skewer_by_direction_witness :
  (exists r,
      moveInfo "g4" pinFen (Some beforePinFen) = Some r
      /\ filter (fun t => negb (isFork t)) (tactics r)
         = [ {| tactic := pin;
                targets := [ leaf "f3" (mkPiece Knight White);
                             leaf "d1" (mkPiece Queen White) ] |} ]
      /\ filter (fun t => negb (isFork t)) (tactics r)
         = flat_map (findingOn (new_Chess pinFen) "g4"
                               (mkPiece Bishop Black) (defense r))
                    [ (1, 1); (1, -1); (-1, 1); (-1, -1) ])
  /\ exists r,
      moveInfo "a1" skewerFen None = Some r
      /\ defense r = defended
      /\ filter (fun t => negb (isFork t)) (tactics r)
         = [ {| tactic := skewer;
                targets := [ leaf "a5" (mkPiece King Black);
                             leaf "a8" (mkPiece Rook Black) ] |} ]
      /\ forall t,
          In t (findingOn (new_Chess skewerFen) "a1" (mkPiece Rook White)
                          (defense r) (0, 1)) ->
          exists s1 s2 p1 p2,
            firstTwoOccupied (new_Chess skewerFen) "a1" 0 1 = [s1; s2]
            /\ get (new_Chess skewerFen) s1 = Some p1
            /\ get (new_Chess skewerFen) s2 = Some p2
            /\ targets t = [leaf s1 p1; leaf s2 p2]
            /\ tactic t = skewer.
Proof.
  split.
  - analysed pinAnalysis_eq pinAnalysis H. split; [reflexivity|].
    refine (proj1 (pin_skewer_by_direction "g4" pinFen (Some beforePinFen) _
                     (mkPiece Bishop Black) _ H _ _)).
    + intros s. replace (fen (new_Chess pinFen)) with pinFen; [reflexivity|].
      vm_compute. reflexivity.
    + vm_compute. reflexivity.
    + left. reflexivity.
  - analysed skewerAnalysis_eq skewerAnalysis H.
    split; [reflexivity|]. split; [reflexivity|].
    intros t Ht.
    destruct (proj2 (pin_skewer_by_direction "a1" skewerFen None _
                       (mkPiece Rook White)
                       ltac:(intros s;
                             replace (fen (new_Chess skewerFen))
                               with skewerFen by (vm_compute; reflexivity);
                             reflexivity)
                       H
                       ltac:(vm_compute; reflexivity)
                       ltac:(right; left; reflexivity))
                    0 1 ltac:(left; reflexivity))
      as (_ & _ & Hfind).
    destruct (Hfind t Ht)
      as (s1 & s2 & p1 & p2 & Htwo & Hp1 & Hp2 & Htg & Hsk & _).
    exists s1, s2, p1, p2. repeat split; try assumption.
    apply Hsk.
    assert (Hsq : firstTwoOccupied (new_Chess skewerFen) "a1" 0 1
                  = ["a5"; "a8"]) by (vm_compute; reflexivity).
    rewrite Hsq in Htwo. injection Htwo as <- <-.
    assert (Hk : get (new_Chess skewerFen) "a5" = Some (mkPiece King Black))
      by (vm_compute; reflexivity).
    assert (Hr : get (new_Chess skewerFen) "a8" = Some (mkPiece Rook Black))
      by (vm_compute; reflexivity).
    rewrite Hk in Hp1. rewrite Hr in Hp2.
    injection Hp1 as <-. injection Hp2 as <-.
    split; [cbn; lia|left; reflexivity].
Defined.

(** *** C4 *)

(** C4 at a capture that promotes: the pawn on b7 attacks one piece, the
    rook on a8, and can take it in four ways, one per kind to promote to;
    the attack list holds the rook four times and the result reports a
    [fork] of these four entries. *)
Lemma promotion_capture_reported_as_fork :
  map (fun m => (m_san m, m_to m))
      (movesOf (new_Chess promotionCaptureFen) "b7")
  = [ ("b8=N", "b8"); ("b8=B", "b8"); ("b8=R+", "b8"); ("b8=Q+", "b8");
      ("bxa8=N", "a8"); ("bxa8=B", "a8"); ("bxa8=R+", "a8");
      ("bxa8=Q+", "a8") ]
  /\ get (new_Chess promotionCaptureFen) "b8" = None
  /\ get (new_Chess promotionCaptureFen) "a8" = Some (mkPiece Rook Black)
  /\ option_map attacks (moveInfo "b7" promotionCaptureFen None)
     = Some [ leaf "a8" (mkPiece Rook Black); leaf "a8" (mkPiece Rook Black);
              leaf "a8" (mkPiece Rook Black); leaf "a8" (mkPiece Rook Black) ]
  /\ option_map tactics (moveInfo "b7" promotionCaptureFen None)
     = Some [ {| tactic := fork;
                 targets := [ leaf "a8" (mkPiece Rook Black);
                              leaf "a8" (mkPiece Rook Black);
                              leaf "a8" (mkPiece Rook Black);
                              leaf "a8" (mkPiece Rook Black) ] |} ].
Proof. vm_compute. repeat split. Qed.

(** Two pieces attacked are reported as a fork of the two. *)
Example fork_of_two_reported :
  option_map (fun r => (map at_ (attacks r), tactics r))
             (moveInfo "c3" forkFen None)
  = Some ( ["a4"; "e2"],
           [ {| tactic := fork;
                targets := [ leaf "a4" (mkPiece Rook White);
                             leaf "e2" (mkPiece Queen White) ] |} ] ).
Proof. vm_compute. reflexivity. Qed.

(** *** C5 *)

Lemma resolve_partitions_attackers_witness :
  reachable (new_Chess pinFen) "e4" = ["f6"; "d5"]
  /\ exists d,
      buildPieceInEffect "e4" pinFen 1 = Some d
      /\ map at_ (attackers d) = ["f6"; "d5"]
      /\ map at_ (defenders d) = []
      /\ (length (attackers d) + length (defenders d)
          = length (reachable (new_Chess pinFen) "e4"))%nat.
Proof.
  split; [vm_compute; reflexivity|].
  destruct (resolve_partitions_attackers pinFen "e4" (mkPiece Pawn White))
    as (d & Hd & _ & _ & _ & Hdef & Hatk & _ & _ & _ & Hlen & _).
  - vm_compute. reflexivity.
  - intros from Hin.
    replace (reachable (new_Chess pinFen) "e4") with ["f6"; "d5"] in Hin
      by (vm_compute; reflexivity).
    destruct Hin as [<-|[<-|[]]]; vm_compute; discriminate.
  - exists d. split; [exact Hd|]. split; [|split; [|exact Hlen]].
    + rewrite Hatk. vm_compute. reflexivity.
    + rewrite Hdef. vm_compute. reflexivity.
Defined.

(** *** C6 *)

Lemma nested_descriptors_shallow_witness :
  exists r,
    moveInfo "g4" pinFen (Some beforePinFen) = Some r
    /\ forall d,
        In d (descriptorsOf r) ->
        forall x,
          In x (attackers d ++ defenders d) ->
          attackers x = [] /\ defenders x = [].
Proof.
  analysed pinAnalysis_eq pinAnalysis H.
  exact (nested_descriptors_shallow "g4" pinFen (Some beforePinFen) _ H).
Defined.

(** *** C7 *)

(** C7 at an en-passant capture: the matched move took a pawn, nothing
    stood on its destination d6 in the previous position, and the result
    has no [capturedPiece]; through [moveAndAnalyze] the ledger keeps
    black's eight pawns. *)
Lemma en_passant_capture_unreported :
  option_map (fun m => (m_san m, m_flags m, m_to m, m_captured m))
             (matchedMove enPassantFen (Some beforeEnPassantFen))
  = Some ("exd6", "e", "d6", Some Pawn)
  /\ get (new_Chess beforeEnPassantFen) "d6" = None
  /\ get (new_Chess beforeEnPassantFen) "d5" = Some (mkPiece Pawn Black)
  /\ get (new_Chess enPassantFen) "d5" = None
  /\ option_map capturedPiece
       (moveInfo "d6" enPassantFen (Some beforeEnPassantFen))
     = Some None
  /\ (let '(analysis, this) :=
        moveAndAnalyze (San "exd6") (new_BetterChess beforeEnPassantFen) in
      option_map capturedPiece analysis = Some None
      /\ fen (super this) = enPassantFen
      /\ material this = initialMaterial).
Proof. vm_compute. repeat split. Qed.

(** A capture on the destination square is reported. *)
Example capture_reported :
  option_map capturedPiece
    (moveInfo "a4" "7k/8/8/8/n7/8/4Q3/4K3 w - - 0 2"
              (Some "7k/8/8/8/R7/2n5/4Q3/4K3 b - - 0 1"))
  = Some (Some (leaf "a4" (mkPiece Rook White))).
Proof. vm_compute. reflexivity. Qed.

(** *** C8 *)

(** C8 at a promotion that gives check: the move played promotes to a
    queen, the tag of the analysis is [check], and the ledger is left as
    it was: white's queens are not counted up. *)
Lemma promotion_with_check_not_counted :
  let '(analysis, this) :=
    moveAndAnalyze (FromTo "a7" "a8" (Some Queen))
                   (new_BetterChess beforePromotionFen) in
  map (fun m => (m_san m, m_flags m, m_color m, m_promotion m))
      (history (super this))
  = [("a8=Q+", "np", White, Some Queen)]
  /\ fen (super this) = promotionFen
  /\ option_map type analysis = Some check
  /\ material this = initialMaterial.
Proof. vm_compute. repeat split. Qed.

(** A promotion whose tag stays [promotion] is counted. *)
Example quiet_promotion_counted :
  let '(analysis, this) :=
    moveAndAnalyze (FromTo "a7" "a8" (Some Queen))
                   (new_BetterChess beforeQuietPromotionFen) in
  option_map type analysis = Some promotion
  /\ material this
     = bumpSide initialMaterial White Queen 1.
Proof. vm_compute. repeat split. Qed.

(** *** C10 *)

(** C10, refuted as stated: the king on e1 has one attacker and no
    defender at depth 1, and the analysis of e1 lists nothing under
    [hangingPieces]. *)
Lemma king_hanging_counterexample :
  buildPieceInEffect "e1" checkFen 1
  = Some {| at_ := "e1"; name := King; color := White;
            attackers := [leaf "e8" (mkPiece Rook Black)];
            defenders := [] |}
  /\ option_map hangingPieces (moveInfo "e1" checkFen None)
     = Some {| hp_w := []; hp_b := [] |}.
Proof. vm_compute. repeat split. Qed.

Lemma king_hanging_not_defended_witness :
  exists r,
    moveInfo "e8" checkFen None = Some r
    /\ In {| at_ := "e1"; name := King; color := White;
             attackers := [leaf "e8" (mkPiece Rook Black)];
             defenders := [] |}
          (hangingOf (hangingPieces r) White)
    /\ forall e, In e (defends r) -> name e <> King.
Proof.
  analysed checkingRookAnalysis_eq checkingRookAnalysis H.
  destruct (king_hanging_not_defended "e8" checkFen None _ H)
    as (Hking & Hdef & _).
  split; [|exact Hdef].
  apply (Hking "e1" (mkPiece King White)).
  - rewrite boardSquares_listed. cbn [In]. tauto.
  - discriminate.
  - vm_compute. reflexivity.
  - reflexivity.
  - vm_compute. reflexivity.
  - cbn [attackers length]. lia.
  - reflexivity.
Defined.

(* ================================================================== *)
(** ** The further properties on positions *)
(* ================================================================== *)

Lemma fianchettoAnalysis_eq :
  moveInfo "g2" fianchettoFen None = fianchettoAnalysis.
Proof. vm_compute. reflexivity. Qed.

Lemma captureAnalysis_eq :
  moveInfo "a4" captureFen (Some beforeCaptureFen) = captureAnalysis.
Proof. vm_compute. reflexivity. Qed.

Lemma quietPromotionAnalysis_eq :
  moveInfo "a8" quietPromotionFen (Some beforeQuietPromotionFen)
  = quietPromotionAnalysis.
Proof. vm_compute. reflexivity. Qed.

Lemma pinAnalysisBare_eq : moveInfo "g4" pinFen None = pinAnalysisBare.
Proof. vm_compute. reflexivity. Qed.

Lemma knightAnalysis_eq : moveInfo "f6" pinFen None = knightAnalysis.
Proof. vm_compute. reflexivity. Qed.

(** [getMoveCategory] on a few SANs. *)
Example getMoveCategory_samples :
  map getMoveCategory ["e4"; "Nxe5"; "e8=Q"; "Qh5+"; "Qxf7#"; "O-O"; "O-O-O+"]
  = [ Category.developing; Category.capture; Category.promotion;
      Category.check; Category.mate; Category.castle; Category.castle ].
Proof. vm_compute. reflexivity. Qed.

Lemma buildPieceInEffect_depth_witness :
  buildPieceInEffect "g4" pinFen (-3)
  = Some (leaf "g4" (mkPiece Bishop Black))
  /\ buildPieceInEffect "g4" pinFen 7 = buildPieceInEffect "g4" pinFen 1.
Proof.
  destruct (buildPieceInEffect_depth "g4" pinFen (-3)) as (H0 & _ & _).
  destruct (buildPieceInEffect_depth "g4" pinFen 7) as (_ & H1 & _).
  split.
  - rewrite H0 by lia. vm_compute. reflexivity.
  - apply H1. lia.
Defined.

Lemma ray_scan_nearest_two_witness :
  exists l,
    _getPiecesAlongRay (new_Chess pinFen) "g4" (-1) (-1) pinFen = Some l
    /\ (length l <= 2)%nat
    /\ l = [ leaf "f3" (mkPiece Knight White);
             leaf "d1" (mkPiece Queen White) ].
Proof.
  destruct (ray_scan_nearest_two (new_Chess pinFen) "g4" (-1) (-1) pinFen
              103 4)
    as (l & Hl & Hlen & _).
  - intros s. reflexivity.
  - unfold unitStep. lia.
  - reflexivity.
  - reflexivity.
  - exists l. split; [exact Hl|]. split; [exact Hlen|].
    assert (Hv : _getPiecesAlongRay (new_Chess pinFen) "g4" (-1) (-1) pinFen
                 = Some [ leaf "f3" (mkPiece Knight White);
                          leaf "d1" (mkPiece Queen White) ])
      by (vm_compute; reflexivity).
    congruence.
Defined.

Lemma defense_balance_witness :
  exists r,
    moveInfo "g4" pinFen (Some beforePinFen) = Some r
    /\ defense r = overdefended
    /\ (defense r = overdefended <->
        (length (attackers (piece r)) < length (defenders (piece r)))%nat).
Proof.
  analysed pinAnalysis_eq pinAnalysis H. split; [reflexivity|].
  exact (proj1 (defense_balance "g4" pinFen (Some beforePinFen) _ H)).
Defined.

Lemma tag_and_attackers_witness :
  exists r,
    moveInfo "a4" captureFen (Some beforeCaptureFen) = Some r
    /\ type r = capture
    /\ attackers (piece r) = [].
Proof.
  analysed captureAnalysis_eq captureAnalysis H. split; [reflexivity|].
  apply (proj1 (proj2 (tag_and_attackers "a4" captureFen
                         (Some beforeCaptureFen) _ H))); discriminate.
Defined.

Lemma enPassant_tag_unreachable_witness :
  exists r,
    moveInfo "d6" enPassantFen (Some beforeEnPassantFen) = Some r
    /\ type r <> enPassant.
Proof.
  analysed enPassantAnalysis_eq enPassantAnalysis H.
  apply (enPassant_tag_unreachable "d6" enPassantFen
           (Some beforeEnPassantFen)); [|exact H].
  intros m Hm _. vm_compute in Hm. injection Hm as <-. discriminate.
Defined.

Lemma fianchetto_tag_witness :
  exists r,
    moveInfo "g2" fianchettoFen None = Some r
    /\ type r = fianchetto
    /\ (type r = fianchetto <->
        Bishop = Bishop
        /\ exists s q,
            In s (fianchettoFront White "g2")
            /\ get (new_Chess fianchettoFen) s = Some q
            /\ ptype q = Pawn /\ pcolor q = White).
Proof.
  analysed fianchettoAnalysis_eq fianchettoAnalysis H.
  split; [reflexivity|].
  apply (fianchetto_tag "g2" fianchettoFen None _ (mkPiece Bishop White) H).
  vm_compute. reflexivity.
Defined.

Lemma analysis_without_previous_witness :
  exists r,
    moveInfo "g4" pinFen (Some EmptyString) = Some r
    /\ capturedPiece r = None
    /\ moveInfo "g4" pinFen None = Some r.
Proof.
  assert (H : moveInfo "g4" pinFen (Some EmptyString) = pinAnalysisBare)
    by (vm_compute; reflexivity).
  unfold pinAnalysisBare in H. eexists. split; [exact H|].
  destruct (analysis_without_previous "g4" pinFen (Some EmptyString) _
              (or_intror (or_introl eq_refl)) H)
    as (Hcap & _ & Hnone).
  split; assumption.
Defined.

Lemma capturedPiece_iff_witness :
  exists r,
    moveInfo "a4" captureFen (Some beforeCaptureFen) = Some r
    /\ capturedPiece r = Some (leaf "a4" (mkPiece Rook White))
    /\ exists prev m cap,
        Some beforeCaptureFen = Some prev
        /\ matchedMove captureFen (Some beforeCaptureFen) = Some m
        /\ get (new_Chess prev) (m_to m) = Some cap
        /\ leaf "a4" (mkPiece Rook White) = leaf (m_to m) cap.
Proof.
  analysed captureAnalysis_eq captureAnalysis H. split; [reflexivity|].
  apply (capturedPiece_iff "a4" captureFen (Some beforeCaptureFen) _ _ H).
  reflexivity.
Defined.

Lemma promotion_tag_iff_witness :
  exists r,
    moveInfo "a8" quietPromotionFen (Some beforeQuietPromotionFen) = Some r
    /\ type r = promotion
    /\ exists m,
        matchedMove quietPromotionFen (Some beforeQuietPromotionFen) = Some m
        /\ occurs "p" (m_flags m)
        /\ ~ occurs "+" (m_san m) /\ ~ occurs "#" (m_san m).
Proof.
  analysed quietPromotionAnalysis_eq quietPromotionAnalysis H.
  split; [reflexivity|].
  apply (promotion_tag_iff "a8" quietPromotionFen
           (Some beforeQuietPromotionFen) _ (mkPiece Queen White) H);
    [vm_compute; reflexivity|reflexivity].
Defined.

Lemma previous_snapshot_scope_witness :
  exists r1 r2,
    moveInfo "g4" pinFen (Some beforePinFen) = Some r1
    /\ moveInfo "g4" pinFen None = Some r2
    /\ tactics r1 = tactics r2
    /\ hangingPieces r1 = hangingPieces r2.
Proof.
  pose proof pinAnalysis_eq as H1. unfold pinAnalysis in H1.
  pose proof pinAnalysisBare_eq as H2. unfold pinAnalysisBare in H2.
  eexists. eexists. split; [exact H1|]. split; [exact H2|].
  destruct (previous_snapshot_scope "g4" pinFen (Some beforePinFen) None
              _ _ H1 H2)
    as (_ & _ & _ & _ & Ht & Hh & _).
  split; assumption.
Defined.

Lemma defends_own_side_witness :
  exists r,
    moveInfo "f6" pinFen None = Some r
    /\ map at_ (defends r) = ["g4"; "d5"; "h7"]
    /\ forall e, In e (defends r) ->
                 color e = Black
                 /\ forall c, ~ In e (hangingOf (hangingPieces r) c).
Proof.
  analysed knightAnalysis_eq knightAnalysis H. split; [reflexivity|].
  intros e He.
  destruct (defends_own_side "f6" pinFen None _ (mkPiece Knight Black) H
              ltac:(vm_compute; reflexivity) e He)
    as (Hc & _ & _ & Hh).
  split; assumption.
Defined.

Lemma tactics_shape_witness :
  (exists r,
      moveInfo "g4" pinFen (Some beforePinFen) = Some r
      /\ (length (tactics r) <= 1 + length (DIRECTIONS Bishop))%nat
      /\ tactics r
         = [] ++ flat_map (findingOn (new_Chess pinFen) "g4"
                                     (mkPiece Bishop Black) (defense r))
                          (DIRECTIONS Bishop))
  /\ exists r,
      moveInfo "c3" forkFen None = Some r
      /\ tactics r = [ {| tactic := fork; targets := attacks r |} ]
      /\ (length (filter isFork (tactics r)) <= 1)%nat.
Proof.
  split.
  - analysed pinAnalysis_eq pinAnalysis H.
    destruct (tactics_shape "g4" pinFen (Some beforePinFen) _
                (mkPiece Bishop Black) H ltac:(vm_compute; reflexivity))
      as (_ & Hlen & _ & _ & Hshape & _).
    split; [exact Hlen|exact Hshape].
  - analysed forkAnalysis_eq forkAnalysis H.
    destruct (tactics_shape "c3" forkFen None _
                (mkPiece Knight Black) H ltac:(vm_compute; reflexivity))
      as (_ & _ & _ & _ & Hshape & _ & Hfork).
    split; [exact Hshape|exact Hfork].
Defined.

Lemma hanging_across_queries_witness :
  exists r1 r2,
    moveInfo "g4" pinFen (Some beforePinFen) = Some r1
    /\ moveInfo "f6" pinFen None = Some r2
    /\ forall c e,
        In e (hangingOf (hangingPieces r1) c) ->
        at_ e <> "f6" ->
        In e (hangingOf (hangingPieces r2) c).
Proof.
  pose proof pinAnalysis_eq as H1. unfold pinAnalysis in H1.
  pose proof knightAnalysis_eq as H2. unfold knightAnalysis in H2.
  eexists. eexists. split; [exact H1|]. split; [exact H2|].
  exact (hanging_across_queries "g4" "f6" pinFen (Some beforePinFen) None
           _ _ H1 H2).
Defined.

Lemma replaceTurn_sets_side_witness :
  replaceTurn pinFen Black
  = "rn1qkb1r/ppp1pppp/5n2/3p4/4P1b1/P4N2/1PPP1PPP/RNBQKB1R b KQkq - 1 4".
Proof.
  apply (replaceTurn_sets_side
           "rn1qkb1r/ppp1pppp/5n2/3p4/4P1b1/P4N2/1PPP1PPP/RNBQKB1R"
           "w" "KQkq - 1 4" Black).
  - intros c Hc. unfold occurs in Hc. cbn [list_ascii_of_string In] in Hc.
    repeat (destruct Hc as [<-|Hc]; [reflexivity|]). destruct Hc.
  - left. reflexivity.
Defined.

Lemma ledger_step_witness :
  exists mv chess',
    move (new_Chess beforeCaptureFen) (San "Nxa4") = Some (mv, chess')
    /\ fst (moveAndAnalyze (San "Nxa4") (new_BetterChess beforeCaptureFen))
       = moveInfo (m_to mv) (m_after mv) (Some (m_before mv))
    /\ material (snd (moveAndAnalyze (San "Nxa4")
                        (new_BetterChess beforeCaptureFen)))
       = bumpSide initialMaterial White Rook (-1).
Proof.
  eassert (Hm : move (new_Chess beforeCaptureFen) (San "Nxa4")
                = Some (_, _))
    by (vm_compute; reflexivity).
  eexists. eexists. split; [exact Hm|]. split.
  - exact (proj1 (ledger_step (San "Nxa4")
                    (new_BetterChess beforeCaptureFen) _ _ Hm)).
  - vm_compute. reflexivity.
Defined.

Lemma getAnalysisAt_previous_witness :
  fst (getAnalysisAt "e4" afterE4)
  = moveInfo "e4" (fen (super afterE4)) None.
Proof.
  apply (proj1 (getAnalysisAt_previous "e4" afterE4)).
  vm_compute. lia.
Defined.

Lemma getAnalysisAt_after_moveAndAnalyze_witness :
  fst (getAnalysisAt "d5" (snd (moveAndAnalyze (San "d5") afterE4)))
  = fst (moveAndAnalyze (San "d5") afterE4).
Proof.
  eassert (Hm : move (super afterE4) (San "d5") = Some (_, _))
    by (vm_compute; reflexivity).
  eassert (Hh : history (super afterE4) = [_])
    by (vm_compute; reflexivity).
  apply (getAnalysisAt_after_moveAndAnalyze (San "d5") afterE4 _ _ [] _
           Hm Hh).
  - vm_compute. reflexivity.
  - vm_compute. reflexivity.
  - vm_compute. reflexivity.
  - discriminate.
Defined.

(** On the first move of an instance [getAnalysisAt] has no previous
    snapshot to give: after the knight takes the rook, [moveAndAnalyze]
    tags the move [capture] and [getAnalysisAt] tags the knight
    [normal]. *)
Example getAnalysisAt_first_move :
  let this := new_BetterChess beforeCaptureFen in
  option_map type (fst (moveAndAnalyze (San "Nxa4") this)) = Some capture
  /\ option_map type
       (fst (getAnalysisAt "a4" (snd (moveAndAnalyze (San "Nxa4") this))))
     = Some normal.
Proof. vm_compute. repeat split. Qed.
